(** * my-react-archery: the target board's geometry, transform and gestures

  A shallow embedding of [src/constant.ts] and of the [TargetBoard]
  component of [src/components/TargetBoard/TargetBoard.tsx].

  JavaScript numbers are modelled as real numbers: rounding is abstracted
  away, which is what "within floating tolerance" stands for in the
  specification.  The ring hit-test, whose answer rounding can change,
  is given a second time over binary64 numbers (module [Double]).  The
  component's [useState] cells become the fields of one
  [State] record, every handler becomes a function from [State] to
  [State], and what the handlers obtain from their surroundings (the
  canvas rectangle, [Date.now()], the browser's timer table, [uuidv4])
  is passed in or threaded through the state. *)

From Stdlib Require Import Reals Lra Lia String ZArith SpecFloat.
From stdpp Require Import base decidable option list gmap.

Local Open Scope R_scope.

(** Comparisons of numbers, as deciders usable in [if] and [bool_decide]. *)
#[global] Instance Rle_decision (a b : R) : Decision (a <= b) := Rle_dec a b.
#[global] Instance Rlt_decision (a b : R) : Decision (a < b) := Rlt_dec a b.
#[global] Instance Rgt_decision (a b : R) : Decision (a > b) := Rgt_dec a b.
#[global] Instance Req_decision : EqDecision R := Req_dec_T.

(** ** constant.ts

    [TargetBoard.tsx] also imports [LONG_PRESS_DURATION] from here; the
    file does not define it, and no definition below needs its value. *)
Module constant.

Definition boardSize : R := 380.

Definition ringColors : list string :=
  [ "#fff"; "#fff"; "#000"; "#000"; "#2196f3"; "#2196f3";
    "#d50000"; "#d50000"; "#ffd600"; "#ffd600" ]%string.

Definition initialRingRadius : R := 180.

Definition ringGap : R := 18.

Definition dotRadius : R := 7.

End constant.

(** ** JavaScript helpers *)
Module JS.

(** Truthiness of a number that is not NaN: every number but zero. *)
Definition truthy (n : R) : bool := negb (bool_decide (n = 0)).

(** Truthiness of a timer handle, a plain integer. *)
Definition truthy_handle (n : nat) : bool := negb (n =? 0)%nat.

(** [Math.max(a, ...rest)] on at least one argument. *)
Definition Math_max (a : R) (rest : list R) : R := fold_left Rmax rest a.

(** [Array.prototype.reduce] with an initial value. *)
Definition reduce {A B : Type} (f : B -> A -> B) (init : B) (l : list A) : B :=
  fold_left f l init.

End JS.

(** ** TargetBoard.tsx *)
Module TargetBoard.
Import constant JS.

(** *** Types *)

Record TransformProps := mkTransform {
  t_x : R;
  t_y : R;
  scale : R
}.

(** A dot's id is a v4 UUID: an opaque token, modelled by the rank of the
    [uuidv4()] call that made it.  Such a string is never empty, so a
    non-null id is always truthy. *)
Definition DotId := nat.

Record Dot := mkDot {
  id : DotId;
  d_x : R;
  d_y : R;
  isTemporary : bool;
  isDragging : bool
}.

Record RingInfo := mkRing {
  outerRadius : R;
  innerRadius : R;
  color : string;
  index : nat
}.

Record Point := mkPoint { p_x : R; p_y : R }.

Record Circle := mkCircle { c_x : R; c_y : R; radius : R }.

Record MouseDownInfo := mkMouseDownInfo {
  m_x : R;
  m_y : R;
  screenX : R;
  screenY : R;
  m_time : R;
  m_longPress : bool
}.

Record TouchStartInfo := mkTouchStartInfo {
  ts_x : R;
  ts_y : R;
  ts_time : R;
  ts_longPress : bool
}.

(** What a handler reads from the DOM: a touch point, the canvas'
    bounding rectangle ([None] when [canvasRef.current] is null). *)
Record Touch := mkTouch { clientX : R; clientY : R }.

Record DOMRect := mkRect { left : R; top : R }.

(** *** Geometry kernel *)

Definition getRings : list RingInfo :=
  imap (fun i color =>
          let outerRadius := initialRingRadius - INR i * ringGap in
          let innerRadius := outerRadius - ringGap in
          mkRing outerRadius innerRadius color i)
       ringColors.

(** The [for] loop of [getRingAtPoint], from index [i] on; [rings] is
    what is left of the array from that index. *)
Fixpoint ringLoop (rings : list RingInfo) (i : nat) (distance : R) : option nat :=
  match rings with
  | [] => None
  | ring :: rest =>
      if bool_decide (distance <= outerRadius ring)
         && bool_decide (distance > innerRadius ring)
      then Some i
      else ringLoop rest (S i) distance
  end.

Definition getRingAtPoint (x y : R) : option nat :=
  let rings := getRings in
  let distance := sqrt (x * x + y * y) in
  ringLoop rings 0 distance.

#[global] Arguments getRingAtPoint : simpl never.

Definition getDistance (x1 y1 x2 y2 : R) : R :=
  sqrt ((x2 - x1) ^ 2 + (y2 - y1) ^ 2).

Definition getCenter (x1 y1 x2 y2 : R) : Point :=
  mkPoint ((x1 + x2) / 2) ((y1 + y2) / 2).

(** [Math.max(...[])] is [-Infinity], which is no real number: that
    branch is the [None] of the inner [match], and it is never taken since
    [allDots] is not empty there. *)
Definition calculateEnclosingCircle (allDots : list Dot) : option Circle :=
  if (length allDots =? 0)%nat then None
  else
    let targetDots := map (fun dot => mkPoint (d_x dot) (d_y dot)) allDots in
    let centerX :=
      reduce (fun sum dot => sum + p_x dot) 0 targetDots / INR (length targetDots) in
    let centerY :=
      reduce (fun sum dot => sum + p_y dot) 0 targetDots / INR (length targetDots) in
    match map (fun dot => sqrt ((p_x dot - centerX) ^ 2 + (p_y dot - centerY) ^ 2))
              targetDots with
    | [] => None
    | d :: ds =>
        let maxDistance := Math_max d ds in
        Some (mkCircle centerX centerY maxDistance)
    end.

(** *** Coordinate transform *)

Definition screenToTarget (transform : TransformProps) (screenX screenY : R) : Point :=
  mkPoint ((screenX - t_x transform) / scale transform)
          ((screenY - t_y transform) / scale transform).

Definition targetToScreen (transform : TransformProps) (targetX targetY : R) : Point :=
  mkPoint (targetX * scale transform + t_x transform)
          (targetY * scale transform + t_y transform).

(** *** Component state

    One field per [useState] cell ([enclosingCircle] is derived by an
    effect and is a function of the state, below), then what the
    component shares with the browser: the table of scheduled timeouts,
    the next timer handle ([window.setTimeout] returns positive integers)
    and the number of [uuidv4()] calls made so far. *)

(** The two closures handed to [window.setTimeout]: each captures the
    pointer-down position and, through [screenToTarget], the transform
    that was current when the handler ran.  The delay
    [LONG_PRESS_DURATION] is read by the browser only; that it has
    elapsed is the arrival of the [Timeout] event. *)
Inductive TimerCallback :=
| TouchLongPress (x y : R) (transform : TransformProps)
| MouseLongPress (x y : R) (transform : TransformProps).

Record State := mkState {
  transform : TransformProps;
  dots : list Dot;
  temporaryDot : option Dot;
  highlightedRing : option nat;
  lastTouchDistance : option R;
  lastTouchCenter : option Point;
  longPressTimer : option nat;
  draggedDotId : option DotId;
  mouseDownInfo : option MouseDownInfo;
  touchStartInfo : option TouchStartInfo;
  wasPinch : bool;
  timers : gmap nat TimerCallback;
  nextTimer : nat;
  nextUuid : nat
}.

Definition setTransform (v : TransformProps) (s : State) : State :=
  mkState v (dots s) (temporaryDot s) (highlightedRing s)
    (lastTouchDistance s) (lastTouchCenter s) (longPressTimer s)
    (draggedDotId s) (mouseDownInfo s) (touchStartInfo s) (wasPinch s)
    (timers s) (nextTimer s) (nextUuid s).

Definition setDots (v : list Dot) (s : State) : State :=
  mkState (transform s) v (temporaryDot s) (highlightedRing s)
    (lastTouchDistance s) (lastTouchCenter s) (longPressTimer s)
    (draggedDotId s) (mouseDownInfo s) (touchStartInfo s) (wasPinch s)
    (timers s) (nextTimer s) (nextUuid s).

Definition setTemporaryDot (v : option Dot) (s : State) : State :=
  mkState (transform s) (dots s) v (highlightedRing s) (lastTouchDistance s)
    (lastTouchCenter s) (longPressTimer s) (draggedDotId s)
    (mouseDownInfo s) (touchStartInfo s) (wasPinch s) (timers s)
    (nextTimer s) (nextUuid s).

Definition setHighlightedRing (v : option nat) (s : State) : State :=
  mkState (transform s) (dots s) (temporaryDot s) v (lastTouchDistance s)
    (lastTouchCenter s) (longPressTimer s) (draggedDotId s)
    (mouseDownInfo s) (touchStartInfo s) (wasPinch s) (timers s)
    (nextTimer s) (nextUuid s).

Definition setLastTouchDistance (v : option R) (s : State) : State :=
  mkState (transform s) (dots s) (temporaryDot s) (highlightedRing s) v
    (lastTouchCenter s) (longPressTimer s) (draggedDotId s)
    (mouseDownInfo s) (touchStartInfo s) (wasPinch s) (timers s)
    (nextTimer s) (nextUuid s).

Definition setLastTouchCenter (v : option Point) (s : State) : State :=
  mkState (transform s) (dots s) (temporaryDot s) (highlightedRing s)
    (lastTouchDistance s) v (longPressTimer s) (draggedDotId s)
    (mouseDownInfo s) (touchStartInfo s) (wasPinch s) (timers s)
    (nextTimer s) (nextUuid s).

Definition setLongPressTimer (v : option nat) (s : State) : State :=
  mkState (transform s) (dots s) (temporaryDot s) (highlightedRing s)
    (lastTouchDistance s) (lastTouchCenter s) v (draggedDotId s)
    (mouseDownInfo s) (touchStartInfo s) (wasPinch s) (timers s)
    (nextTimer s) (nextUuid s).

Definition setDraggedDotId (v : option DotId) (s : State) : State :=
  mkState (transform s) (dots s) (temporaryDot s) (highlightedRing s)
    (lastTouchDistance s) (lastTouchCenter s) (longPressTimer s) v
    (mouseDownInfo s) (touchStartInfo s) (wasPinch s) (timers s)
    (nextTimer s) (nextUuid s).

Definition setMouseDownInfo (v : option MouseDownInfo) (s : State) : State :=
  mkState (transform s) (dots s) (temporaryDot s) (highlightedRing s)
    (lastTouchDistance s) (lastTouchCenter s) (longPressTimer s)
    (draggedDotId s) v (touchStartInfo s) (wasPinch s) (timers s)
    (nextTimer s) (nextUuid s).

Definition setTouchStartInfo (v : option TouchStartInfo) (s : State) : State :=
  mkState (transform s) (dots s) (temporaryDot s) (highlightedRing s)
    (lastTouchDistance s) (lastTouchCenter s) (longPressTimer s)
    (draggedDotId s) (mouseDownInfo s) v (wasPinch s) (timers s)
    (nextTimer s) (nextUuid s).

Definition setWasPinch (v : bool) (s : State) : State :=
  mkState (transform s) (dots s) (temporaryDot s) (highlightedRing s)
    (lastTouchDistance s) (lastTouchCenter s) (longPressTimer s)
    (draggedDotId s) (mouseDownInfo s) (touchStartInfo s) v (timers s)
    (nextTimer s) (nextUuid s).

Definition setTimers (v : gmap nat TimerCallback) (s : State) : State :=
  mkState (transform s) (dots s) (temporaryDot s) (highlightedRing s)
    (lastTouchDistance s) (lastTouchCenter s) (longPressTimer s)
    (draggedDotId s) (mouseDownInfo s) (touchStartInfo s) (wasPinch s) v
    (nextTimer s) (nextUuid s).

Definition setNextTimer (v : nat) (s : State) : State :=
  mkState (transform s) (dots s) (temporaryDot s) (highlightedRing s)
    (lastTouchDistance s) (lastTouchCenter s) (longPressTimer s)
    (draggedDotId s) (mouseDownInfo s) (touchStartInfo s) (wasPinch s)
    (timers s) v (nextUuid s).

Definition setNextUuid (v : nat) (s : State) : State :=
  mkState (transform s) (dots s) (temporaryDot s) (highlightedRing s)
    (lastTouchDistance s) (lastTouchCenter s) (longPressTimer s)
    (draggedDotId s) (mouseDownInfo s) (touchStartInfo s) (wasPinch s)
    (timers s) (nextTimer s) v.

(** [useState] initial values, for a screen of the given size. *)
Definition initialState (width height : R) : State :=
  mkState (mkTransform (width / 2) (height / 2) 1) [] None None None None
    None None None None false ∅ 1%nat 0%nat.

(** The effect that keeps [enclosingCircle] current. *)
Definition enclosingCircle (s : State) : option Circle :=
  let allDots :=
    match temporaryDot s with
    | Some temporaryDot => dots s ++ [temporaryDot]
    | None => dots s
    end in
  calculateEnclosingCircle allDots.

(** *** Browser services *)

Definition setTimeout (cb : TimerCallback) (s : State) : nat * State :=
  let handle := nextTimer s in
  (handle, setNextTimer (S handle) (setTimers (<[handle := cb]> (timers s)) s)).

Definition clearTimeout (handle : nat) (s : State) : State :=
  setTimers (delete handle (timers s)) s.

Definition uuidv4 (s : State) : DotId * State :=
  (nextUuid s, setNextUuid (S (nextUuid s)) s).

(** [if (longPressTimer) { window.clearTimeout(longPressTimer);
    setLongPressTimer(null); }] *)
Definition cancelLongPress (s : State) : State :=
  match longPressTimer s with
  | Some timer =>
      if truthy_handle timer
      then setLongPressTimer None (clearTimeout timer s)
      else s
  | None => s
  end.

(** *** Handlers *)

(** The long-press callbacks, run by the browser when a timeout fires. *)
Definition runTimer (cb : TimerCallback) (s : State) : State :=
  match cb with
  | TouchLongPress x y captured =>
      let p := screenToTarget captured x y in
      let '(newId, s) := uuidv4 s in
      let newTemporaryDot := mkDot newId (p_x p) (p_y p) true true in
      let s := setTemporaryDot (Some newTemporaryDot) s in
      let s := setDraggedDotId (Some (id newTemporaryDot)) s in
      setTouchStartInfo
        (match touchStartInfo s with
         | Some info =>
             Some (mkTouchStartInfo (ts_x info) (ts_y info) (ts_time info) true)
         | None => None
         end) s
  | MouseLongPress x y captured =>
      let p := screenToTarget captured x y in
      let '(newId, s) := uuidv4 s in
      let newTemporaryDot := mkDot newId (p_x p) (p_y p) true true in
      let s := setTemporaryDot (Some newTemporaryDot) s in
      let s := setDraggedDotId (Some (id newTemporaryDot)) s in
      setMouseDownInfo
        (match mouseDownInfo s with
         | Some info =>
             Some (mkMouseDownInfo (m_x info) (m_y info) (screenX info)
                     (screenY info) (m_time info) true)
         | None => None
         end) s
  end.

Definition handleTimeout (handle : nat) (s : State) : State :=
  match timers s !! handle with
  | Some cb => runTimer cb (setTimers (delete handle (timers s)) s)
  | None => s
  end.

Definition handleTouchStart (rect : option DOMRect) (now : R)
    (touches : list Touch) (s : State) : State :=
  match touches with
  | [touch] =>
      match rect with
      | None => s
      | Some rect =>
          let x := clientX touch - left rect in
          let y := clientY touch - top rect in
          let captured := transform s in
          let s := setTouchStartInfo (Some (mkTouchStartInfo x y now false)) s in
          let s := setWasPinch false s in
          let '(timer, s) := setTimeout (TouchLongPress x y captured) s in
          setLongPressTimer (Some timer) s
      end
  | [touch1; touch2] =>
      let s := cancelLongPress s in
      match rect with
      | None => s
      | Some rect =>
          let x1 := clientX touch1 - left rect in
          let y1 := clientY touch1 - top rect in
          let x2 := clientX touch2 - left rect in
          let y2 := clientY touch2 - top rect in
          let distance := getDistance x1 y1 x2 y2 in
          let center := getCenter x1 y1 x2 y2 in
          let s := setLastTouchDistance (Some distance) s in
          let s := setLastTouchCenter (Some center) s in
          setWasPinch true s
      end
  | _ => s
  end.

(** The body shared by the one-touch branch of [handleTouchMove] and by
    [handleMouseMove]: drag the temporary dot to the pointer. *)
Definition dragTemporaryDot (rect : option DOMRect) (cx cy : R) (s : State) : State :=
  match rect with
  | None => s
  | Some rect =>
      let x := cx - left rect in
      let y := cy - top rect in
      let p := screenToTarget (transform s) x y in
      let s :=
        setTemporaryDot
          (match temporaryDot s with
           | Some prev =>
               Some (mkDot (id prev) (p_x p) (p_y p) (isTemporary prev)
                       (isDragging prev))
           | None => None
           end) s in
      let ringIndex := getRingAtPoint (p_x p) (p_y p) in
      setHighlightedRing ringIndex s
  end.

Definition handleTouchMove (rect : option DOMRect) (touches : list Touch)
    (s : State) : State :=
  match touches with
  | [touch] =>
      match temporaryDot s, draggedDotId s with
      | Some _, Some _ => dragTemporaryDot rect (clientX touch) (clientY touch) s
      | _, _ => s
      end
  | [touch1; touch2] =>
      match lastTouchDistance s, lastTouchCenter s with
      | Some lastDistance, Some lastCenter =>
          if truthy lastDistance then
            match rect with
            | None => s
            | Some rect =>
                let x1 := clientX touch1 - left rect in
                let y1 := clientY touch1 - top rect in
                let x2 := clientX touch2 - left rect in
                let y2 := clientY touch2 - top rect in
                let distance := getDistance x1 y1 x2 y2 in
                let center := getCenter x1 y1 x2 y2 in
                let scaleChange := distance / lastDistance in
                let newScale :=
                  Rmax 0.1 (Rmin 5 (scale (transform s) * scaleChange)) in
                let deltaX := p_x center - p_x lastCenter in
                let deltaY := p_y center - p_y lastCenter in
                let prev := transform s in
                let s :=
                  setTransform
                    (mkTransform (t_x prev + deltaX) (t_y prev + deltaY) newScale)
                    s in
                let s := setLastTouchDistance (Some distance) s in
                setLastTouchCenter (Some center) s
            end
          else s
      | _, _ => s
      end
  | _ => s
  end.

(** [{ ...temporaryDot, isTemporary: false, isDragging: false }] *)
Definition committed (temporaryDot : Dot) : Dot :=
  mkDot (id temporaryDot) (d_x temporaryDot) (d_y temporaryDot) false false.

(** The first branch of both release handlers. *)
Definition commitTemporaryDot (temporaryDot : Dot) (s : State) : State :=
  let s := setDots (dots s ++ [committed temporaryDot]) s in
  let s := setTemporaryDot None s in
  let s := setDraggedDotId None s in
  setHighlightedRing None s.

(** The second branch of both release handlers: a dot at the board point
    of the recorded pointer-down position. *)
Definition placeDot (x y : R) (s : State) : State :=
  let p := screenToTarget (transform s) x y in
  let '(newId, s) := uuidv4 s in
  setDots (dots s ++ [mkDot newId (p_x p) (p_y p) false false]) s.

Definition handleTouchEnd (touches : list Touch) (s : State) : State :=
  let s0 := s in
  let s := cancelLongPress s in
  match touches with
  | [] =>
      let s :=
        match draggedDotId s0, temporaryDot s0 with
        | Some _, Some temporaryDot => commitTemporaryDot temporaryDot s
        | _, _ =>
            match touchStartInfo s0 with
            | Some info =>
                if negb (ts_longPress info) && negb (wasPinch s0)
                then placeDot (ts_x info) (ts_y info) s
                else s
            | None => s
            end
        end in
      let s := setLastTouchDistance None s in
      let s := setLastTouchCenter None s in
      let s := setTouchStartInfo None s in
      setWasPinch false s
  | _ => s
  end.

Definition handleMouseDown (rect : option DOMRect) (now : R) (button : nat)
    (cx cy : R) (s : State) : State :=
  if negb (button =? 0)%nat then s
  else
    match rect with
    | None => s
    | Some rect =>
        let x := cx - left rect in
        let y := cy - top rect in
        let captured := transform s in
        let s := setMouseDownInfo (Some (mkMouseDownInfo x y cx cy now false)) s in
        let '(timer, s) := setTimeout (MouseLongPress x y captured) s in
        setLongPressTimer (Some timer) s
    end.

Definition handleMouseMove (rect : option DOMRect) (cx cy : R) (s : State) : State :=
  match temporaryDot s, draggedDotId s with
  | Some _, Some _ => dragTemporaryDot rect cx cy s
  | _, _ => s
  end.

Definition handleMouseUp (s : State) : State :=
  let s0 := s in
  let s := cancelLongPress s in
  let s :=
    match temporaryDot s0, draggedDotId s0 with
    | Some temporaryDot, Some _ => commitTemporaryDot temporaryDot s
    | _, _ =>
        match mouseDownInfo s0 with
        | Some info =>
            if negb (m_longPress info)
            then placeDot (m_x info) (m_y info) s
            else s
        | None => s
        end
    end in
  setMouseDownInfo None s.

Definition handleWheel (rect : option DOMRect) (cx cy deltaY : R) (s : State) : State :=
  let scaleBy := 1.1 in
  let oldScale := scale (transform s) in
  let mousePointTo :=
    screenToTarget (transform s)
      (cx - match rect with Some rect => left rect | None => 0 end)
      (cy - match rect with Some rect => top rect | None => 0 end) in
  let newScale := if bool_decide (deltaY < 0) then oldScale * scaleBy
                  else oldScale / scaleBy in
  let newScale := Rmax 0.1 (Rmin 5 newScale) in
  setTransform
    (mkTransform (cx - p_x mousePointTo * newScale)
                 (cy - p_y mousePointTo * newScale) newScale) s.

(** *** The event loop *)

(** What reaches the component, in arrival order.  Each event carries what
    its handler reads: the canvas rectangle at that moment, the clock, the
    list [event.touches] of the touches still on the surface. *)
Inductive Event :=
| TouchStart (rect : option DOMRect) (now : R) (touches : list Touch)
| TouchMove (rect : option DOMRect) (touches : list Touch)
| TouchEnd (touches : list Touch)
| MouseDown (rect : option DOMRect) (now : R) (button : nat) (cx cy : R)
| MouseMove (rect : option DOMRect) (cx cy : R)
| MouseUp
| Wheel (rect : option DOMRect) (cx cy deltaY : R)
| Timeout (handle : nat).

Definition step (s : State) (e : Event) : State :=
  match e with
  | TouchStart rect now touches => handleTouchStart rect now touches s
  | TouchMove rect touches => handleTouchMove rect touches s
  | TouchEnd touches => handleTouchEnd touches s
  | MouseDown rect now button cx cy => handleMouseDown rect now button cx cy s
  | MouseMove rect cx cy => handleMouseMove rect cx cy s
  | MouseUp => handleMouseUp s
  | Wheel rect cx cy deltaY => handleWheel rect cx cy deltaY s
  | Timeout handle => handleTimeout handle s
  end.

Definition run (s : State) (es : list Event) : State := fold_left step es s.

(** *** Drawing

    What [draw] does to the 2D context, as the list of the calls and
    property writes it makes, in order.  [canvasRef.current] may be null
    and [getContext("2d")] may return null; [enclosingCircle] is the cell
    that the effect above keeps current.  [scaleBy] stands for [ctx.scale],
    and [set_p v] for the assignment [ctx.p = v]. *)
Inductive CanvasOp :=
| clearRect (x y w h : R)
| save
| restore
| translate (x y : R)
| scaleBy (x y : R)
| set_fillStyle (v : string)
| set_strokeStyle (v : string)
| set_lineWidth (v : R)
| set_globalAlpha (v : R)
| fillRect (x y w h : R)
| strokeRect (x y w h : R)
| beginPath
| arc (x y r startAngle endAngle : R)
| fill
| stroke
| setLineDash (segments : list R).

Record Canvas := mkCanvas {
  canvas_width : R;
  canvas_height : R;
  context2d : bool
}.

(** The body of [rings.forEach((ring, i) => ...)]. *)
Definition drawRing (transform : TransformProps) (highlightedRing : option nat)
    (i : nat) (ring : RingInfo) : list CanvasOp :=
  [ set_fillStyle (color ring);
    set_strokeStyle
      (if String.eqb (color ring) "#000" && negb (i mod 2 =? 0)%nat
       then "#fff" else "#000")%string;
    set_lineWidth
      (if bool_decide (highlightedRing = Some i)
       then 4 / scale transform else 1 / scale transform) ]
  ++ (if bool_decide (highlightedRing = Some i) then [set_globalAlpha 0.3] else [])
  ++ [ beginPath;
       arc 0 0 (outerRadius ring) 0 (2 * PI);
       fill;
       stroke;
       beginPath;
       arc 0 0 (innerRadius ring) 0 (2 * PI);
       set_fillStyle "#fff"%string;
       fill;
       stroke;
       set_globalAlpha 1 ].

(** The body of the [forEach] over the dots. *)
Definition drawDot (transform : TransformProps) (dot : Dot) : list CanvasOp :=
  let p := targetToScreen transform (d_x dot) (d_y dot) in
  [ set_fillStyle
      (if isTemporary dot
       then (if isDragging dot then "#00cc44" else "#ff0000")
       else "#ff0000")%string;
    set_strokeStyle "#000"%string;
    set_lineWidth 2;
    beginPath;
    arc (p_x p) (p_y p) dotRadius 0 (2 * PI);
    fill;
    stroke ].

Definition draw (canvasRef : option Canvas) (s : State) : list CanvasOp :=
  match canvasRef with
  | None => []
  | Some canvas =>
      if negb (context2d canvas) then []
      else
        let transform := transform s in
        [ clearRect 0 0 (canvas_width canvas) (canvas_height canvas);
          save;
          translate (t_x transform) (t_y transform);
          scaleBy (scale transform) (scale transform);
          set_fillStyle "#fff"%string;
          set_strokeStyle "#000"%string;
          set_lineWidth (2 / scale transform);
          fillRect (- boardSize / 2) (- boardSize / 2) boardSize boardSize;
          strokeRect (- boardSize / 2) (- boardSize / 2) boardSize boardSize ]
        ++ concat (imap (drawRing transform (highlightedRing s)) getRings)
        ++ match enclosingCircle s with
           | Some circle =>
               [ set_strokeStyle "#00ff00"%string;
                 set_lineWidth (3 / scale transform);
                 setLineDash [10 / scale transform; 5 / scale transform];
                 beginPath;
                 arc (c_x circle) (c_y circle) (radius circle) 0 (2 * PI);
                 stroke;
                 setLineDash [] ]
           | None => []
           end
        ++ [restore]
        ++ concat (map (drawDot transform)
                     (dots s ++ match temporaryDot s with
                                | Some temporaryDot => [temporaryDot]
                                | None => []
                                end))
  end.

End TargetBoard.

(** ** The ring hit-test in binary64

    The ring a point falls in is decided by comparing a computed distance
    with computed radii, so here rounding can change the answer.  This
    module gives [getRings] and [getRingAtPoint] once more, over IEEE 754
    binary64 numbers with every operation rounded to nearest-even, as the
    engine evaluates them. *)
Module Double.

Definition number : Type := spec_float.

Definition prec : Z := 53.
Definition emax : Z := 1024.

(** An integer literal. *)
Definition ofZ (z : Z) : number := binary_normalize prec emax z 0 false.

Definition add : number -> number -> number := SFadd prec emax.
Definition sub : number -> number -> number := SFsub prec emax.
Definition mul : number -> number -> number := SFmul prec emax.
Definition div : number -> number -> number := SFdiv prec emax.
Definition Math_sqrt : number -> number := SFsqrt prec emax.

(** [a < b], [a <= b] and [a == b]; all three are false when an operand is
    NaN, and [a > b] is [b < a]. *)
Definition ltb : number -> number -> bool := SFltb.
Definition leb : number -> number -> bool := SFleb.
Definition eqb : number -> number -> bool := SFeqb.

Definition zero : number := S754_zero false.
Definition NaN : number := S754_nan.

Definition initialRingRadius : number := ofZ 180.
Definition ringGap : number := ofZ 18.

Record RingInfo := mkRing {
  outerRadius : number;
  innerRadius : number;
  color : string;
  index : nat
}.

Definition getRings : list RingInfo :=
  imap (fun i color =>
          let outerRadius := sub initialRingRadius (mul (ofZ (Z.of_nat i)) ringGap) in
          let innerRadius := sub outerRadius ringGap in
          mkRing outerRadius innerRadius color i)
       constant.ringColors.

Fixpoint ringLoop (rings : list RingInfo) (i : nat) (distance : number) : option nat :=
  match rings with
  | [] => None
  | ring :: rest =>
      if leb distance (outerRadius ring) && ltb (innerRadius ring) distance
      then Some i
      else ringLoop rest (S i) distance
  end.

Definition getRingAtPoint (x y : number) : option nat :=
  let rings := getRings in
  let distance := Math_sqrt (add (mul x x) (mul y y)) in
  ringLoop rings 0 distance.

(** The distance [getRingAtPoint] computes for a point. *)
Definition distanceFromCentre (x y : number) : number :=
  Math_sqrt (add (mul x x) (mul y y)).

(** Whether a computed distance passes the test of a ring. *)
Definition inRing (ring : RingInfo) (distance : number) : Prop :=
  ltb (innerRadius ring) distance = true /\ leb distance (outerRadius ring) = true.

(** The real number a finite double stands for: [m * 2 ^ e], signed.
    Infinities and NaN stand for none; they are sent to zero and no
    statement below reads their value. *)
Definition toR (a : number) : R :=
  match a with
  | S754_finite s m e =>
      let v := match e with
               | Zneg p => IZR (Zpos m) / IZR (Z.pow_pos 2 p)
               | _ => IZR (Zpos m * 2 ^ e)
               end in
      if s then - v else v
  | _ => 0
  end.

End Double.

Import constant JS TargetBoard.

(** * Properties *)

(** ** Coordinate transform *)
Section Transform.

(** C8: for every point p and every valid transform T (scale nonzero),
    converting p from screen to board coordinates and back returns p. *)
Theorem screen_board_roundtrip (T : TransformProps) (x y : R) :
  scale T <> 0 ->
  targetToScreen T (p_x (screenToTarget T x y)) (p_y (screenToTarget T x y))
  = mkPoint x y.
Proof.
  intros Hs. unfold targetToScreen, screenToTarget. simpl.
  f_equal; field; exact Hs.
Qed.

Lemma screen_board_roundtrip_witness :
  scale (mkTransform 10 20 2) <> 0 /\
  targetToScreen (mkTransform 10 20 2)
    (p_x (screenToTarget (mkTransform 10 20 2) 3 4))
    (p_y (screenToTarget (mkTransform 10 20 2) 3 4))
  = mkPoint 3 4.
Proof.
  assert (H : scale (mkTransform 10 20 2) <> 0) by (simpl; lra).
  split; [exact H | apply (screen_board_roundtrip (mkTransform 10 20 2) 3 4 H)].
Defined.

End Transform.

(** ** Geometry kernel *)
Section Geometry.

(** Distance from a dot to the centre of a circle, in board space. *)
Definition distanceTo (c : Circle) (q : Dot) : R :=
  sqrt ((d_x q - c_x c) ^ 2 + (d_y q - c_y c) ^ 2).

(** The arithmetic mean of a list of numbers. *)
Definition mean (l : list R) : R := foldr Rplus 0 l / INR (length l).

Lemma fold_left_Rplus_acc {A : Type} (f : A -> R) (l : list A) (a : R) :
  fold_left (fun sum q => sum + f q) l a = a + foldr Rplus 0 (map f l).
Proof.
  revert a. induction l as [|q l IH]; intros a; simpl.
  - lra.
  - rewrite IH. lra.
Qed.

Lemma Math_max_ge_first (a : R) (l : list R) : a <= Math_max a l.
Proof.
  unfold Math_max. revert a. induction l as [|b l IH]; intros a; simpl.
  - lra.
  - eapply Rle_trans; [apply (Rmax_l a b) | apply IH].
Qed.

Lemma Math_max_ge (a : R) (l : list R) (b : R) :
  b ∈ l -> b <= Math_max a l.
Proof.
  unfold Math_max. revert a. induction l as [|c l IH]; intros a Hin; simpl.
  - inversion Hin.
  - apply elem_of_cons in Hin as [->|Hin].
    + eapply Rle_trans; [apply (Rmax_r a c) | apply (Math_max_ge_first _ l)].
    + apply IH, Hin.
Qed.

Lemma Math_max_attained (a : R) (l : list R) :
  Math_max a l ∈ a :: l.
Proof.
  unfold Math_max. revert a. induction l as [|c l IH]; intros a; simpl.
  - apply list_elem_of_here.
  - specialize (IH (Rmax a c)).
    apply elem_of_cons in IH as [Heq|Hin].
    + rewrite Heq. unfold Rmax. destruct (Rle_dec a c).
      * apply list_elem_of_further, list_elem_of_here.
      * apply list_elem_of_here.
    + do 2 apply list_elem_of_further. exact Hin.
Qed.

Lemma reduce_coordinate (f : Point -> R) (l : list Dot) :
  reduce (fun sum dot => sum + f dot) 0
    (map (fun dot => mkPoint (d_x dot) (d_y dot)) l)
  / INR (length (map (fun dot => mkPoint (d_x dot) (d_y dot)) l))
  = mean (map (fun dot => f (mkPoint (d_x dot) (d_y dot))) l).
Proof.
  unfold reduce, mean. rewrite fold_left_Rplus_acc, map_map, !length_map.
  f_equal. lra.
Qed.

(** The result on a non-empty list, with the source's sums rewritten as
    means. *)
Lemma calculateEnclosingCircle_cons (d : Dot) (ds : list Dot) :
  let cx := mean (map d_x (d :: ds)) in
  let cy := mean (map d_y (d :: ds)) in
  let c0 := mkCircle cx cy 0 in
  calculateEnclosingCircle (d :: ds)
  = Some (mkCircle cx cy (Math_max (distanceTo c0 d) (map (distanceTo c0) ds))).
Proof.
  intros cx cy c0. unfold calculateEnclosingCircle.
  cbn [length Nat.eqb].
  rewrite (reduce_coordinate p_x), (reduce_coordinate p_y).
  cbn [p_x p_y]. fold cx cy.
  rewrite map_map. reflexivity.
Qed.

(** C5: the enclosing circle of no dot is none; of a single dot p it is
    centred at p with radius 0; of a non-empty list it is centred at the
    centroid, its radius is the largest distance from the centroid to a
    dot, and so every dot lies within the radius of the centre. *)
Theorem enclosingCircle_centroid_maxRadius :
  calculateEnclosingCircle [] = None
  /\ (forall p : Dot,
        calculateEnclosingCircle [p] = Some (mkCircle (d_x p) (d_y p) 0))
  /\ (forall (d : Dot) (ds : list Dot),
        exists c : Circle,
          calculateEnclosingCircle (d :: ds) = Some c
          /\ c_x c = mean (map d_x (d :: ds))
          /\ c_y c = mean (map d_y (d :: ds))
          /\ (exists q : Dot, q ∈ d :: ds /\ radius c = distanceTo c q)
          /\ (forall q : Dot, q ∈ d :: ds -> distanceTo c q <= radius c)).
Proof.
  split; [reflexivity|]. split.
  - intros p. rewrite calculateEnclosingCircle_cons.
    unfold mean, Math_max, distanceTo. simpl.
    replace ((d_x p + 0) / 1) with (d_x p) by field.
    replace ((d_y p + 0) / 1) with (d_y p) by field.
    do 3 f_equal. rewrite <- sqrt_0. f_equal. ring.
  - intros d ds. eexists. split; [apply calculateEnclosingCircle_cons|].
    cbn [c_x c_y radius].
    set (c0 := mkCircle _ _ 0).
    set (c := mkCircle _ _ (Math_max _ _)).
    assert (Hd : forall q, distanceTo c q = distanceTo c0 q) by reflexivity.
    split; [reflexivity|]. split; [reflexivity|]. split.
    + pose proof (Math_max_attained (distanceTo c0 d) (map (distanceTo c0) ds)) as H.
      change (distanceTo c0 d :: map (distanceTo c0) ds)
        with (map (distanceTo c0) (d :: ds)) in H.
      apply list_elem_of_fmap in H as (q & Heq & Hq).
      exists q. split; [exact Hq|]. rewrite Hd. exact Heq.
    + intros q Hq. rewrite Hd.
      apply elem_of_cons in Hq as [->|Hq].
      * apply Math_max_ge_first.
      * apply Math_max_ge. apply list_elem_of_fmap. exists q. split; [reflexivity|exact Hq].
Qed.

(** Scenario E: dots at (0,0), (10,0) and (0,10). *)
Example enclosingCircle_of_three :
exists c : Circle,
  calculateEnclosingCircle
    [mkDot 0%nat 0 0 false false; mkDot 1%nat 10 0 false false;
     mkDot 2%nat 0 10 false false] = Some c
  /\ c_x c = 10 / 3 /\ c_y c = 10 / 3
  /\ radius c = sqrt (500 / 9)
  /\ radius c = distanceTo c (mkDot 1%nat 10 0 false false).
Proof.
eexists. split; [apply calculateEnclosingCircle_cons|].
cbn [c_x c_y radius].
assert (Hx : mean (map d_x [mkDot 0%nat 0 0 false false; mkDot 1%nat 10 0 false false;
                            mkDot 2%nat 0 10 false false]) = 10 / 3)
  by (unfold mean; cbn; field).
assert (Hy : mean (map d_y [mkDot 0%nat 0 0 false false; mkDot 1%nat 10 0 false false;
                            mkDot 2%nat 0 10 false false]) = 10 / 3)
  by (unfold mean; cbn; field).
rewrite Hx, Hy. split; [reflexivity|]. split; [reflexivity|].
unfold Math_max, distanceTo. cbn [map fold_left d_x d_y c_x c_y].
replace ((0 - 10 / 3) ^ 2 + (0 - 10 / 3) ^ 2) with (200 / 9) by field.
replace ((10 - 10 / 3) ^ 2 + (0 - 10 / 3) ^ 2) with (500 / 9) by field.
replace ((0 - 10 / 3) ^ 2 + (10 - 10 / 3) ^ 2) with (500 / 9) by field.
rewrite (Rmax_right (sqrt (200 / 9)) (sqrt (500 / 9)))
  by (apply sqrt_le_1_alt; lra).
rewrite Rmax_right by lra. split; reflexivity.
Qed.

(** *** Ring hit-test *)

(** Whether a distance falls in a ring: above the inner radius, up to
    the outer one. *)
Definition inRing (ring : RingInfo) (distance : R) : Prop :=
  innerRadius ring < distance <= outerRadius ring.

Lemma ringLoop_Some (rings : list RingInfo) (k i : nat) (distance : R) :
  ringLoop rings k distance = Some i ->
  exists (j : nat) (ring : RingInfo),
    i = (k + j)%nat /\ rings !! j = Some ring /\ inRing ring distance.
Proof.
  revert k. induction rings as [|ring rest IH]; intros k H; simpl in H.
  - discriminate.
  - destruct (bool_decide (distance <= outerRadius ring)) eqn:Ho;
      [destruct (bool_decide (distance > innerRadius ring)) eqn:Hi|]; simpl in H.
    + injection H as <-. exists 0%nat, ring.
      apply bool_decide_eq_true in Ho, Hi.
      split; [lia|]. split; [reflexivity|]. unfold inRing. lra.
    + apply IH in H as (j & r & -> & Hl & Hr).
      exists (S j), r. split; [lia|]. split; assumption.
    + apply IH in H as (j & r & -> & Hl & Hr).
      exists (S j), r. split; [lia|]. split; assumption.
Qed.

Lemma ringLoop_None (rings : list RingInfo) (k : nat) (distance : R) :
  ringLoop rings k distance = None ->
  forall (j : nat) (ring : RingInfo),
    rings !! j = Some ring -> ~ inRing ring distance.
Proof.
  revert k. induction rings as [|ring rest IH]; intros k H j r Hl; simpl in H.
  - discriminate.
  - destruct (bool_decide (distance <= outerRadius ring)) eqn:Ho;
      [destruct (bool_decide (distance > innerRadius ring)) eqn:Hi|];
      simpl in H; try discriminate.
    + destruct j as [|j]; simpl in Hl.
      * injection Hl as <-. apply bool_decide_eq_false in Hi.
        unfold inRing. lra.
      * eapply IH; eassumption.
    + destruct j as [|j]; simpl in Hl.
      * injection Hl as <-. apply bool_decide_eq_false in Ho.
        unfold inRing. lra.
      * eapply IH; eassumption.
Qed.

(** The ten rings: ring [i] spans from [162 - 18 i] to [180 - 18 i]. *)
Lemma getRings_lookup (i : nat) (ring : RingInfo) :
  getRings !! i = Some ring ->
  (i < 10)%nat
  /\ outerRadius ring = initialRingRadius - INR i * ringGap
  /\ innerRadius ring = outerRadius ring - ringGap.
Proof.
  unfold getRings, ringColors. intros H.
  do 10 (destruct i as [|i];
         [injection H as <-; split; [lia|split; reflexivity]|]).
  discriminate.
Qed.

(** Ring [j] holds every distance above [bound] that the rings before
    it have left. *)
Ltac ring_above d j bound :=
  destruct (Rlt_dec bound d);
  [ exists j; eexists; split;
    [ reflexivity
    | unfold inRing, initialRingRadius, ringGap; simpl; lra ]
  | ].

Lemma getRings_cover (distance : R) :
  0 < distance <= initialRingRadius ->
  exists (j : nat) (ring : RingInfo),
    getRings !! j = Some ring /\ inRing ring distance.
Proof.
  unfold initialRingRadius. intros [Hpos Hle].
  ring_above distance 0%nat 162.
  ring_above distance 1%nat 144.
  ring_above distance 2%nat 126.
  ring_above distance 3%nat 108.
  ring_above distance 4%nat 90.
  ring_above distance 5%nat 72.
  ring_above distance 6%nat 54.
  ring_above distance 7%nat 36.
  ring_above distance 8%nat 18.
  exists 9%nat; eexists; split;
    [reflexivity|unfold inRing, initialRingRadius, ringGap; simpl; lra].
Qed.

Lemma getRings_disjoint (i j : nat) (ri rj : RingInfo) (distance : R) :
  getRings !! i = Some ri -> getRings !! j = Some rj ->
  inRing ri distance -> inRing rj distance -> i = j.
Proof.
  intros Hi Hj [Hi1 Hi2] [Hj1 Hj2].
  apply getRings_lookup in Hi as (_ & Hio & Hii).
  apply getRings_lookup in Hj as (_ & Hjo & Hji).
  rewrite Hii, Hio in Hi1. rewrite Hio in Hi2.
  rewrite Hji, Hjo in Hj1. rewrite Hjo in Hj2.
  unfold initialRingRadius, ringGap in *.
  assert (H1 : INR i < INR (S j)) by (rewrite S_INR; lra).
  assert (H2 : INR j < INR (S i)) by (rewrite S_INR; lra).
  apply INR_lt in H1, H2. lia.
Qed.

Lemma getRings_range (j : nat) (ring : RingInfo) (distance : R) :
  getRings !! j = Some ring -> inRing ring distance ->
  0 < distance <= initialRingRadius.
Proof.
  intros Hj [H1 H2].
  apply getRings_lookup in Hj as (Hlt & Ho & Hi).
  rewrite Hi, Ho in H1. rewrite Ho in H2.
  unfold initialRingRadius, ringGap in *.
  pose proof (pos_INR j) as Hp.
  assert (Hn : INR j <= 9).
  { replace 9 with (INR 9) by (simpl; lra). apply le_INR. lia. }
  lra.
Qed.

(** Over the real numbers, where no distance is rounded, [getRingAtPoint]
    partitions the plane.  A point whose distance d from the origin
    satisfies 0 < d <= outerRadius(0) lies in exactly one ring, the one
    returned; a point with d > outerRadius(0), or at the exact centre,
    gets none. *)
Lemma getRingAtPoint_partition (x y : R) :
  let d := sqrt (x * x + y * y) in
  (outerRadius <$> getRings !! 0%nat) = Some initialRingRadius
  /\ (0 < d <= initialRingRadius ->
      exists (i : nat) (ring : RingInfo),
        getRingAtPoint x y = Some i
        /\ getRings !! i = Some ring
        /\ inRing ring d
        /\ forall (j : nat) (ring' : RingInfo),
             getRings !! j = Some ring' -> inRing ring' d -> j = i)
  /\ (d > initialRingRadius \/ d = 0 -> getRingAtPoint x y = None).
Proof.
  intros d. split; [|split].
  - unfold getRings, ringColors, initialRingRadius, ringGap. simpl.
    f_equal. lra.
  - intros Hd. unfold getRingAtPoint. fold d.
    destruct (ringLoop getRings 0 d) as [i|] eqn:Hloop.
    + apply ringLoop_Some in Hloop as (j & ring & -> & Hl & Hr).
      exists j, ring. repeat split; try assumption; try apply Hr.
      intros j' ring' Hl' Hr'. eapply getRings_disjoint; eassumption.
    + destruct (getRings_cover d Hd) as (j & ring & Hl & Hr).
      exfalso. eapply ringLoop_None; eassumption.
  - intros Hd. unfold getRingAtPoint. fold d.
    destruct (ringLoop getRings 0 d) as [i|] eqn:Hloop; [|reflexivity].
    apply ringLoop_Some in Hloop as (j & ring & _ & Hl & Hr).
    pose proof (getRings_range j ring d Hl Hr). lra.
Qed.

End Geometry.

(** ** The ring hit-test as computed in binary64 *)
Section RoundedHitTest.

(** *** The order of doubles

    A double that is a number is ranked by a triple of integers, compared
    lexicographically: the sign class, then the exponent, then the
    mantissa (both negated below zero).  The two zeros share a rank. *)
Definition rank (a : Double.number) : Z * Z * Z :=
  match a with
  | S754_infinity true => (-2, 0, 0)
  | S754_finite true m e => (-1, - e, - Zpos m)
  | S754_zero _ => (0, 0, 0)
  | S754_nan => (0, 0, 0)
  | S754_finite false m e => (1, e, Zpos m)
  | S754_infinity false => (2, 0, 0)
  end%Z.

Definition rankLt (a b : Z * Z * Z) : Prop :=
  (a.1.1 < b.1.1
   \/ (a.1.1 = b.1.1 /\ (a.1.2 < b.1.2 \/ (a.1.2 = b.1.2 /\ a.2 < b.2))))%Z.

Definition isNumber (a : Double.number) : Prop := a <> Double.NaN.

Lemma double_ltb_rank (a b : Double.number) :
  Double.ltb a b = true <-> isNumber a /\ isNumber b /\ rankLt (rank a) (rank b).
Proof.
  unfold Double.ltb, SFltb, SFcompare, isNumber, Double.NaN, rankLt.
  destruct a as [sa|sa| |sa ma ea]; destruct b as [sb|sb| |sb mb eb];
    try destruct sa; try destruct sb;
    try (destruct (Z.compare_spec ea eb);
         try (pose proof (Pos.compare_spec ma mb) as Hm;
              unfold Pos.compare in Hm; destruct Hm));
    cbn; split; try discriminate;
    try (intros; repeat split; try discriminate; lia);
    try (intros (? & ? & ?); try congruence; lia).
Qed.

Lemma double_leb_rank (a b : Double.number) :
  Double.leb a b = true
  <-> isNumber a /\ isNumber b /\ (rankLt (rank a) (rank b) \/ rank a = rank b).
Proof.
  unfold Double.leb, SFleb, SFcompare, isNumber, Double.NaN, rankLt.
  destruct a as [sa|sa| |sa ma ea]; destruct b as [sb|sb| |sb mb eb];
    try destruct sa; try destruct sb;
    try (destruct (Z.compare_spec ea eb);
         try (pose proof (Pos.compare_spec ma mb) as Hm;
              unfold Pos.compare in Hm; destruct Hm));
    cbn; split; try discriminate;
    try (intros; repeat split; try discriminate;
         first [left; lia | right; congruence | right; f_equal; f_equal; lia]);
    try (intros (? & ? & [?|?]); first [congruence | lia | (simplify_eq; lia)]).
Qed.

Lemma double_eqb_rank (a b : Double.number) :
  Double.eqb a b = true -> isNumber a /\ isNumber b /\ rank a = rank b.
Proof.
  unfold Double.eqb, SFeqb, SFcompare, isNumber, Double.NaN.
  destruct a as [sa|sa| |sa ma ea]; destruct b as [sb|sb| |sb mb eb];
    try destruct sa; try destruct sb;
    try (destruct (Z.compare_spec ea eb);
         try (pose proof (Pos.compare_spec ma mb) as Hm;
              unfold Pos.compare in Hm; destruct Hm));
    cbn; try discriminate;
    intros _; repeat split; try discriminate; congruence.
Qed.

Lemma double_ltb_leb_trans (a b c : Double.number) :
  Double.ltb a b = true -> Double.leb b c = true -> Double.ltb a c = true.
Proof.
  rewrite !double_ltb_rank, double_leb_rank. unfold rankLt.
  intros (Ha & _ & Hab) (_ & Hc & [Hbc | Hbc]).
  - repeat split; [assumption..|lia].
  - rewrite <- Hbc. auto.
Qed.

Lemma double_leb_ltb_trans (a b c : Double.number) :
  Double.leb a b = true -> Double.ltb b c = true -> Double.ltb a c = true.
Proof.
  rewrite !double_ltb_rank, double_leb_rank. unfold rankLt.
  intros (Ha & _ & [Hab | Hab]) (_ & Hc & Hbc).
  - repeat split; [assumption..|lia].
  - rewrite Hab. auto.
Qed.

Lemma double_leb_trans (a b c : Double.number) :
  Double.leb a b = true -> Double.leb b c = true -> Double.leb a c = true.
Proof.
  rewrite !double_leb_rank. unfold rankLt.
  intros (Ha & _ & [Hab | Hab]) (_ & Hc & [Hbc | Hbc]).
  - repeat split; [assumption..|left; lia].
  - rewrite <- Hbc. auto.
  - rewrite Hab. auto.
  - rewrite Hab. auto.
Qed.

Lemma double_ltb_irrefl (a : Double.number) : Double.ltb a a = false.
Proof.
  destruct (Double.ltb a a) eqn:H; [|reflexivity].
  apply double_ltb_rank in H as (_ & _ & H). unfold rankLt in H. lia.
Qed.

(** Two numbers are comparable: what is not below is at least. *)
Lemma double_ltb_false_leb (a b : Double.number) :
  isNumber a -> isNumber b -> Double.ltb a b = false -> Double.leb b a = true.
Proof.
  intros Ha Hb H. apply double_leb_rank. repeat split; [assumption..|].
  assert (Hn : ~ rankLt (rank a) (rank b)).
  { intros Hlt. rewrite (proj2 (double_ltb_rank a b)) in H; [discriminate|auto]. }
  unfold rankLt in *.
  destruct (rank a) as [[a1 a2] a3], (rank b) as [[b1 b2] b3]; cbn in *.
  destruct (decide (a1 = b1)), (decide (a2 = b2)), (decide (a3 = b3));
    subst; try (left; lia).
  right; reflexivity.
Qed.

(** *** The loop and the rings *)

Lemma double_ringLoop_Some (rings : list Double.RingInfo) (k i : nat)
    (distance : Double.number) :
  Double.ringLoop rings k distance = Some i ->
  exists (j : nat) (ring : Double.RingInfo),
    i = (k + j)%nat /\ rings !! j = Some ring /\ Double.inRing ring distance
    /\ forall (j' : nat) (ring' : Double.RingInfo),
         (j' < j)%nat -> rings !! j' = Some ring' -> ~ Double.inRing ring' distance.
Proof.
  revert k. induction rings as [|ring rest IH]; intros k H; simpl in H.
  - discriminate.
  - destruct (Double.leb distance (Double.outerRadius ring)) eqn:Ho;
      [destruct (Double.ltb (Double.innerRadius ring) distance) eqn:Hi|]; simpl in H.
    + injection H as <-. exists 0%nat, ring.
      split; [lia|]. split; [reflexivity|]. split; [split; assumption|].
      intros j' ring' Hlt. lia.
    + apply IH in H as (j & r & -> & Hl & Hr & Hfirst).
      exists (S j), r. split; [lia|]. split; [assumption|]. split; [assumption|].
      intros [|j'] ring' Hlt Hl'; simpl in Hl'.
      * injection Hl' as <-. intros [Hin _]. congruence.
      * apply (Hfirst j' ring'); [lia|assumption].
    + apply IH in H as (j & r & -> & Hl & Hr & Hfirst).
      exists (S j), r. split; [lia|]. split; [assumption|]. split; [assumption|].
      intros [|j'] ring' Hlt Hl'; simpl in Hl'.
      * injection Hl' as <-. intros [_ Hout]. congruence.
      * apply (Hfirst j' ring'); [lia|assumption].
Qed.

Lemma double_ringLoop_None (rings : list Double.RingInfo) (k : nat)
    (distance : Double.number) :
  Double.ringLoop rings k distance = None ->
  forall (j : nat) (ring : Double.RingInfo),
    rings !! j = Some ring -> ~ Double.inRing ring distance.
Proof.
  revert k. induction rings as [|ring rest IH]; intros k H j r Hl; simpl in H.
  - discriminate.
  - destruct (Double.leb distance (Double.outerRadius ring)) eqn:Ho;
      [destruct (Double.ltb (Double.innerRadius ring) distance) eqn:Hi|];
      simpl in H; try discriminate.
    + destruct j as [|j]; simpl in Hl.
      * injection Hl as <-. intros [Hin _]. congruence.
      * eapply IH; eassumption.
    + destruct j as [|j]; simpl in Hl.
      * injection Hl as <-. intros [_ Hout]. congruence.
      * eapply IH; eassumption.
Qed.

(** The radii are computed without error: ring [i] spans from the double
    [162 - 18 i] to the double [180 - 18 i]. *)
Lemma double_getRings_lookup (i : nat) (ring : Double.RingInfo) :
  Double.getRings !! i = Some ring ->
  (i < 10)%nat
  /\ Double.outerRadius ring = Double.ofZ (180 - 18 * Z.of_nat i)
  /\ Double.innerRadius ring = Double.ofZ (162 - 18 * Z.of_nat i).
Proof.
  intros H.
  do 10 (destruct i as [|i];
         [vm_compute in H; injection H as <-; split; [lia|split; vm_compute; reflexivity]|]).
  vm_compute in H. discriminate.
Qed.

(** A later ring ends at or below the inner radius of an earlier one. *)
Lemma double_getRings_descend (i j : nat) (ri rj : Double.RingInfo) :
  Double.getRings !! i = Some ri -> Double.getRings !! j = Some rj ->
  (i < j)%nat ->
  Double.leb (Double.outerRadius rj) (Double.innerRadius ri) = true.
Proof.
  intros Hi Hj Hlt.
  apply double_getRings_lookup in Hi as (Hi10 & _ & ->).
  apply double_getRings_lookup in Hj as (Hj10 & -> & _).
  do 10 (destruct i as [|i];
         [do 10 (destruct j as [|j];
                 [first [lia | vm_compute; reflexivity]|]); lia|]).
  lia.
Qed.

Lemma double_getRings_disjoint (i j : nat) (ri rj : Double.RingInfo)
    (distance : Double.number) :
  Double.getRings !! i = Some ri -> Double.getRings !! j = Some rj ->
  Double.inRing ri distance -> Double.inRing rj distance -> i = j.
Proof.
  intros Hi Hj [Hi1 Hi2] [Hj1 Hj2].
  destruct (lt_eq_lt_dec i j) as [[Hlt | Heq] | Hlt]; [|exact Heq|]; exfalso.
  - pose proof (double_getRings_descend i j ri rj Hi Hj Hlt) as Hd.
    pose proof (double_ltb_leb_trans _ _ _
                  (double_ltb_leb_trans _ _ _ Hi1 Hj2) Hd) as Hc.
    rewrite double_ltb_irrefl in Hc. discriminate.
  - pose proof (double_getRings_descend j i rj ri Hj Hi Hlt) as Hd.
    pose proof (double_ltb_leb_trans _ _ _
                  (double_ltb_leb_trans _ _ _ Hj1 Hi2) Hd) as Hc.
    rewrite double_ltb_irrefl in Hc. discriminate.
Qed.

(** Ring [j] passes every distance above its inner radius that the rings
    before it have refused. *)
Ltac double_ring_above d j :=
  match goal with
  | Hup : Double.leb d ?outer = true |- _ =>
      let H := fresh "Habove" in
      destruct (Double.ltb (Double.ofZ (162 - 18 * Z.of_nat j)) d) eqn:H;
      [ exists j; eexists; split; [reflexivity|]; split; [exact H|exact Hup]
      | apply double_ltb_false_leb in H; [clear Hup|discriminate|assumption] ]
  end.

Lemma double_getRings_cover (distance : Double.number) :
  Double.ltb Double.zero distance = true ->
  Double.leb distance Double.initialRingRadius = true ->
  exists (j : nat) (ring : Double.RingInfo),
    Double.getRings !! j = Some ring /\ Double.inRing ring distance.
Proof.
  intros Hpos Hle.
  assert (Hnum : isNumber distance) by (apply double_ltb_rank in Hpos; tauto).
  double_ring_above distance 0%nat.
  double_ring_above distance 1%nat.
  double_ring_above distance 2%nat.
  double_ring_above distance 3%nat.
  double_ring_above distance 4%nat.
  double_ring_above distance 5%nat.
  double_ring_above distance 6%nat.
  double_ring_above distance 7%nat.
  double_ring_above distance 8%nat.
  exists 9%nat. eexists. split; [reflexivity|]. split; [exact Hpos|assumption].
Qed.

Lemma double_getRings_range (j : nat) (ring : Double.RingInfo)
    (distance : Double.number) :
  Double.getRings !! j = Some ring -> Double.inRing ring distance ->
  Double.ltb Double.zero distance = true
  /\ Double.leb distance Double.initialRingRadius = true.
Proof.
  intros Hj [H1 H2].
  apply double_getRings_lookup in Hj as (Hlt & Ho & Hi).
  rewrite Hi in H1. rewrite Ho in H2. split.
  - refine (double_leb_ltb_trans _ _ _ _ H1).
    clear -Hlt. do 10 (destruct j as [|j]; [vm_compute; reflexivity|]). lia.
  - refine (double_leb_trans _ _ _ H2 _).
    clear -Hlt. do 10 (destruct j as [|j]; [vm_compute; reflexivity|]). lia.
Qed.

End RoundedHitTest.

(** ** The partition of the plane, as computed *)
Section RoundedPartition.

(** The double written [1e-7]. *)
Definition oneE_7 : Double.number := Double.div (Double.ofZ 1) (Double.ofZ 10000000).

Lemma double_toR_pos (m : positive) (e : Z) :
  0 < Double.toR (S754_finite false m e).
Proof.
  unfold Double.toR. destruct e as [|p|p].
  - apply IZR_lt. lia.
  - apply IZR_lt. lia.
  - apply Rdiv_lt_0_compat; apply IZR_lt; [lia|].
    rewrite Z.pow_pos_fold. apply Z.pow_pos_nonneg; lia.
Qed.

(** Read over exact distances, the partition fails on both sides of a
    ring boundary.  The point (180, 1e-7) lies beyond the outer radius of ring
    0, yet the computed distance rounds to 180 and ring 0 is returned; the
    point (162, 1e-7) lies in ring 0, above 162 and within 180, yet the
    computed distance rounds to 162 and ring 1 is returned. *)
Lemma getRingAtPoint_rounds_onto_boundary :
  (exists ring0 : Double.RingInfo,
     Double.getRings !! 0%nat = Some ring0
     /\ sqrt (Double.toR (Double.ofZ 180) * Double.toR (Double.ofZ 180)
              + Double.toR oneE_7 * Double.toR oneE_7)
        > Double.toR (Double.outerRadius ring0)
     /\ Double.getRingAtPoint (Double.ofZ 180) oneE_7 = Some 0%nat)
  /\ (exists ring0 : Double.RingInfo,
        Double.getRings !! 0%nat = Some ring0
        /\ Double.toR (Double.innerRadius ring0)
           < sqrt (Double.toR (Double.ofZ 162) * Double.toR (Double.ofZ 162)
                   + Double.toR oneE_7 * Double.toR oneE_7)
           <= Double.toR (Double.outerRadius ring0)
        /\ Double.getRingAtPoint (Double.ofZ 162) oneE_7 = Some 1%nat).
Proof.
  assert (Hy : oneE_7 = S754_finite false 7555786372591432 (-76))
    by (vm_compute; reflexivity).
  assert (H180 : Double.ofZ 180 = S754_finite false 6333186975989760 (-45))
    by (vm_compute; reflexivity).
  assert (H162 : Double.ofZ 162 = S754_finite false 5699868278390784 (-45))
    by (vm_compute; reflexivity).
  assert (Ry : Double.toR oneE_7 = 7555786372591432 / 75557863725914323419136).
  { rewrite Hy. unfold Double.toR.
    replace (Z.pow_pos 2 76) with 75557863725914323419136%Z by (vm_compute; reflexivity).
    reflexivity. }
  assert (R180 : Double.toR (Double.ofZ 180) = 180).
  { rewrite H180. unfold Double.toR.
    replace (Z.pow_pos 2 45) with 35184372088832%Z by (vm_compute; reflexivity).
    lra. }
  assert (R162 : Double.toR (Double.ofZ 162) = 162).
  { rewrite H162. unfold Double.toR.
    replace (Z.pow_pos 2 45) with 35184372088832%Z by (vm_compute; reflexivity).
    lra. }
  split.
  - exists (Double.mkRing (Double.ofZ 180) (Double.ofZ 162) "#fff" 0).
    split; [vm_compute; reflexivity|]. split; [|vm_compute; reflexivity].
    cbn [Double.outerRadius]. rewrite R180, Ry.
    apply Rlt_gt. rewrite <- (sqrt_square 180) at 1 by lra.
    apply sqrt_lt_1_alt. lra.
  - exists (Double.mkRing (Double.ofZ 180) (Double.ofZ 162) "#fff" 0).
    split; [vm_compute; reflexivity|]. split; [|vm_compute; reflexivity].
    cbn [Double.outerRadius Double.innerRadius]. rewrite R180, R162, Ry. split.
    + rewrite <- (sqrt_square 162) at 1 by lra.
      apply sqrt_lt_1_alt. lra.
    + rewrite <- (sqrt_square 180) by lra.
      apply sqrt_le_1_alt. lra.
Qed.

(** C6: [getRingAtPoint] partitions the plane by the distance d it
    computes, the rounded square root of the rounded sum of squares.  When
    0 < d <= outerRadius(0), exactly one ring passes d, and its index is
    returned; when d > outerRadius(0), when d is zero and when d is NaN,
    nothing is returned. *)
Theorem getRingAtPoint_partition_computed (x y : Double.number) :
  let d := Double.distanceFromCentre x y in
  (Double.outerRadius <$> Double.getRings !! 0%nat) = Some Double.initialRingRadius
  /\ (Double.ltb Double.zero d = true /\ Double.leb d Double.initialRingRadius = true ->
      exists (i : nat) (ring : Double.RingInfo),
        Double.getRingAtPoint x y = Some i
        /\ Double.getRings !! i = Some ring
        /\ Double.inRing ring d
        /\ forall (j : nat) (ring' : Double.RingInfo),
             Double.getRings !! j = Some ring' -> Double.inRing ring' d -> j = i)
  /\ (Double.ltb Double.initialRingRadius d = true
      \/ Double.eqb d Double.zero = true
      \/ d = Double.NaN ->
      Double.getRingAtPoint x y = None).
Proof.
  intros d. split; [|split].
  - vm_compute. reflexivity.
  - intros [Hpos Hle]. unfold Double.getRingAtPoint.
    change (Double.Math_sqrt _) with d.
    destruct (Double.ringLoop Double.getRings 0 d) as [i|] eqn:Hloop.
    + apply double_ringLoop_Some in Hloop as (j & ring & -> & Hl & Hr & _).
      exists j, ring. split; [reflexivity|]. split; [assumption|].
      split; [assumption|].
      intros j' ring' Hl' Hr'. eapply double_getRings_disjoint; eassumption.
    + destruct (double_getRings_cover d Hpos Hle) as (j & ring & Hl & Hr).
      exfalso. eapply double_ringLoop_None; eassumption.
  - intros Hd. unfold Double.getRingAtPoint.
    change (Double.Math_sqrt _) with d.
    destruct (Double.ringLoop Double.getRings 0 d) as [i|] eqn:Hloop; [|reflexivity].
    exfalso.
    apply double_ringLoop_Some in Hloop as (j & ring & _ & Hl & Hr & _).
    destruct (double_getRings_range j ring d Hl Hr) as [Hpos Hle].
    destruct Hd as [Hd | [Hd | Hd]].
    + pose proof (double_ltb_leb_trans _ _ _ Hd Hle) as Hc.
      rewrite double_ltb_irrefl in Hc. discriminate.
    + apply double_eqb_rank in Hd as (_ & _ & Hd).
      apply double_ltb_rank in Hpos as (_ & _ & Hpos).
      rewrite Hd in Hpos. unfold rankLt in Hpos. cbn in Hpos. lia.
    + apply double_ltb_rank in Hpos as (_ & Hn & _). contradiction.
Qed.

(** The hit-test at work: a point at distance 5 is in the innermost ring,
    a point on the rim in the outermost; the centre, a point beyond the
    rim and a point with a NaN coordinate are in none. *)
Example getRingAtPoint_double_examples :
Double.getRingAtPoint (Double.ofZ 3) (Double.ofZ 4) = Some 9%nat
/\ Double.getRingAtPoint (Double.ofZ 180) Double.zero = Some 0%nat
/\ Double.getRingAtPoint Double.zero Double.zero = None
/\ Double.getRingAtPoint (Double.ofZ 200) Double.zero = None
/\ Double.getRingAtPoint Double.NaN (Double.ofZ 4) = None.
Proof. vm_compute. repeat split; reflexivity. Qed.

End RoundedPartition.

(** Unfolds the handlers and splits on every test they make. *)
Ltac handler_cases :=
unfold handleTouchStart, handleTouchMove, handleTouchEnd, handleMouseDown,
  handleMouseMove, handleMouseUp, handleWheel, handleTimeout, runTimer,
  dragTemporaryDot, commitTemporaryDot, placeDot, cancelLongPress,
  setTimeout, clearTimeout, uuidv4;
repeat case_match; simpl.

(** Reads the fields of a state built by setters, and nothing else. *)
Ltac state_cbn :=
cbn [transform dots temporaryDot highlightedRing lastTouchDistance
     lastTouchCenter longPressTimer draggedDotId mouseDownInfo touchStartInfo
     wasPinch timers nextTimer nextUuid
     setTransform setDots setTemporaryDot setHighlightedRing
     setLastTouchDistance setLastTouchCenter setLongPressTimer setDraggedDotId
     setMouseDownInfo setTouchStartInfo setWasPinch setTimers setNextTimer
     setNextUuid].

(** ** Zoom *)
Section Zoom.

(** The zoom bounds, as both zoom paths write them. *)
Definition clampScale (v : R) : R := Rmax 0.1 (Rmin 5 v).

Lemma clampScale_bounds (v : R) : 0.1 <= clampScale v <= 5.
Proof.
unfold clampScale, Rmax, Rmin.
destruct (Rle_dec 5 v); destruct (Rle_dec 0.1 _); lra.
Qed.

Lemma clampScale_id (v : R) : 0.1 <= v <= 5 -> clampScale v = v.
Proof.
intros H. unfold clampScale, Rmax, Rmin.
destruct (Rle_dec 5 v); destruct (Rle_dec 0.1 _); lra.
Qed.

Definition scaleInBounds (s : State) : Prop :=
0.1 <= scale (transform s) <= 5.

Lemma step_scaleInBounds (s : State) (e : Event) :
scaleInBounds s -> scaleInBounds (step s e).
Proof.
unfold scaleInBounds. intros H.
destruct e; simpl; handler_cases; try assumption;
  apply clampScale_bounds.
Qed.

Lemma run_scaleInBounds (es : list Event) (s : State) :
scaleInBounds s -> scaleInBounds (run s es).
Proof.
unfold run. revert s. induction es as [|e es IH]; intros s H; simpl.
- exact H.
- apply IH, step_scaleInBounds, H.
Qed.

(** C9: the scale always lies in [0.1, 5]: it starts at 1, every sequence
    of events (wheel notches, pinch moves of any ratio, pans, and all the
    others) leaves it within the bounds, and a two-finger move that keeps
    the finger distance, a pan, does not change it. *)
Theorem scale_always_clamped (width height : R) (es : list Event) :
let s := run (initialState width height) es in
scale (transform (initialState width height)) = 1
/\ 0.1 <= scale (transform s) <= 5
/\ forall (rect : DOMRect) (touch1 touch2 : Touch),
     lastTouchDistance s
     = Some (getDistance (clientX touch1 - left rect) (clientY touch1 - top rect)
               (clientX touch2 - left rect) (clientY touch2 - top rect)) ->
     scale (transform (handleTouchMove (Some rect) [touch1; touch2] s))
     = scale (transform s).
Proof.
intros s.
assert (Hs : scaleInBounds s).
{ apply run_scaleInBounds. unfold scaleInBounds. simpl. lra. }
split; [reflexivity|]. split; [exact Hs|].
intros rect touch1 touch2 Hd. unfold handleTouchMove. rewrite Hd.
destruct (lastTouchCenter s) as [lastCenter|]; [|reflexivity].
destruct (truthy _) eqn:Ht; [|reflexivity]. simpl.
unfold truthy in Ht. apply negb_true_iff, bool_decide_eq_false in Ht.
fold (clampScale (scale (transform s)
        * (getDistance (clientX touch1 - left rect) (clientY touch1 - top rect)
             (clientX touch2 - left rect) (clientY touch2 - top rect)
           / getDistance (clientX touch1 - left rect) (clientY touch1 - top rect)
               (clientX touch2 - left rect) (clientY touch2 - top rect)))).
rewrite clampScale_id; [field; exact Ht|].
unfold Rdiv. rewrite Rinv_r, Rmult_1_r by exact Ht. exact Hs.
Qed.

(** C7: a pinch-move event that finds a last two-finger distance of zero
    changes nothing: no division happens, the scale and the whole prior
    state are kept. *)
Theorem pinch_zero_distance_noop
  (s : State) (rect : option DOMRect) (touch1 touch2 : Touch) :
lastTouchDistance s = Some 0 ->
handleTouchMove rect [touch1; touch2] s = s.
Proof.
intros H. unfold handleTouchMove. rewrite H.
destruct (lastTouchCenter s); [|reflexivity].
unfold truthy. rewrite bool_decide_eq_true_2 by reflexivity. reflexivity.
Qed.

(** Two fingers landing on the same pixel record a distance of zero. *)
Definition coincidentTouches : State :=
run (initialState 800 600)
  [TouchStart (Some (mkRect 0 0)) 0 [mkTouch 5 5; mkTouch 5 5]].

Lemma pinch_zero_distance_noop_witness :
lastTouchDistance coincidentTouches = Some 0
/\ handleTouchMove (Some (mkRect 0 0)) [mkTouch 0 0; mkTouch 9 9] coincidentTouches
   = coincidentTouches.
Proof.
assert (H : lastTouchDistance coincidentTouches = Some 0).
{ simpl. unfold getDistance. f_equal. rewrite <- sqrt_0. f_equal. ring. }
split; [exact H|].
exact (pinch_zero_distance_noop coincidentTouches (Some (mkRect 0 0))
         (mkTouch 0 0) (mkTouch 9 9) H).
Defined.

(** The division of the pinch branch only ever runs on a nonzero
    divisor: a two-finger move that changes the state found one. *)
Lemma pinch_divisor_nonzero
  (s : State) (rect : option DOMRect) (touch1 touch2 : Touch) :
handleTouchMove rect [touch1; touch2] s <> s ->
exists d : R, lastTouchDistance s = Some d /\ d <> 0.
Proof.
unfold handleTouchMove. intros H.
destruct (lastTouchDistance s) as [d|]; [|congruence].
destruct (lastTouchCenter s); [|congruence].
destruct (truthy d) eqn:Ht; [|congruence].
exists d. split; [reflexivity|].
unfold truthy in Ht. apply negb_true_iff, bool_decide_eq_false in Ht. exact Ht.
Qed.

(** *** Pivot *)

(** The wheel path recomputes the offsets around the cursor: when the
    canvas sits at the viewport's origin, the board point under the cursor
    is the same before and after the notch. *)
Lemma handleWheel_keeps_pivot (s : State) (cx cy deltaY : R) :
screenToTarget (transform (handleWheel (Some (mkRect 0 0)) cx cy deltaY s)) cx cy
= screenToTarget (transform s) (cx - 0) (cy - 0).
Proof.
unfold handleWheel. cbn [left top].
destruct (screenToTarget (transform s) (cx - 0) (cy - 0)) as [bx by'].
cbn [p_x p_y].
set (ns := Rmax 0.1 _).
assert (Hns : 0.1 <= ns <= 5) by apply clampScale_bounds.
unfold screenToTarget. simpl. f_equal; field; lra.
Qed.

(** The wheel path subtracts the canvas position when it reads the
    cursor and not when it writes the offsets: on a canvas that starts 100
    pixels to the right, a notch at the board's centre moves the centre. *)
Lemma handleWheel_shifted_canvas_moves_pivot :
let s := initialState 800 600 in
let s' := handleWheel (Some (mkRect 100 0)) 500 300 (-1) s in
screenToTarget (transform s) (500 - 100) (300 - 0) = mkPoint 0 0
/\ p_x (screenToTarget (transform s') (500 - 100) (300 - 0)) < 0.
Proof.
intros s s'. unfold s', handleWheel, s. cbn [initialState transform scale left top].
rewrite bool_decide_eq_true_2 by lra.
replace (Rmax 0.1 (Rmin 5 (1 * 1.1))) with 1.1
  by (unfold Rmax, Rmin; destruct (Rle_dec 5 _); destruct (Rle_dec 0.1 _); lra).
unfold screenToTarget. cbn. split.
- f_equal; field.
- lra.
Qed.

(** Scenario C on a 800 x 600 screen: two fingers 100 apart around
    M = (100, 100), then 200 apart around the same M. *)
Definition pinchStart : State :=
run (initialState 800 600)
  [TouchStart (Some (mkRect 0 0)) 0 [mkTouch 50 100; mkTouch 150 100]].

Definition pinchMoved : State :=
step pinchStart (TouchMove (Some (mkRect 0 0)) [mkTouch 0 100; mkTouch 200 100]).

Lemma getDistance_horizontal (a b y : R) :
a <= b -> getDistance a y b y = b - a.
Proof.
intros H. unfold getDistance.
replace ((b - a) ^ 2 + (y - y) ^ 2) with ((b - a) * (b - a)) by ring.
apply sqrt_square. lra.
Qed.

(** C1, at the failing input: the pinch step doubles the scale and leaves
    the offsets alone, so the board point under the fixed midpoint M moves
    from (-300, -200) to (-150, -100). *)
Theorem pinch_moves_point_under_midpoint :
lastTouchDistance pinchStart = Some 100
/\ lastTouchCenter pinchStart = Some (mkPoint 100 100)
/\ lastTouchDistance pinchMoved = Some 200
/\ lastTouchCenter pinchMoved = Some (mkPoint 100 100)
/\ transform pinchStart = mkTransform 400 300 1
/\ transform pinchMoved = mkTransform 400 300 2
/\ screenToTarget (transform pinchStart) 100 100 = mkPoint (-300) (-200)
/\ screenToTarget (transform pinchMoved) 100 100 = mkPoint (-150) (-100)
/\ screenToTarget (transform pinchMoved) 100 100
   <> screenToTarget (transform pinchStart) 100 100.
Proof.
assert (Hd : lastTouchDistance pinchStart = Some 100).
{ simpl. rewrite getDistance_horizontal by lra. f_equal. lra. }
assert (Hc : lastTouchCenter pinchStart = Some (mkPoint 100 100)).
{ simpl. unfold getCenter. do 2 f_equal; lra. }
assert (Ht : transform pinchStart = mkTransform 400 300 1).
{ simpl. f_equal; lra. }
assert (Hd' : getDistance (0 - 0) (100 - 0) (200 - 0) (100 - 0) = 200).
{ rewrite getDistance_horizontal by lra. lra. }
assert (Hc' : getCenter (0 - 0) (100 - 0) (200 - 0) (100 - 0) = mkPoint 100 100).
{ unfold getCenter. f_equal; lra. }
assert (Hm : pinchMoved
             = setLastTouchCenter (Some (mkPoint 100 100))
                 (setLastTouchDistance (Some 200)
                    (setTransform (mkTransform 400 300 2) pinchStart))).
{ unfold pinchMoved, step, handleTouchMove. rewrite Hd, Hc, Ht.
  unfold truthy. rewrite bool_decide_eq_false_2 by lra.
  cbn [negb left top clientX clientY]. rewrite Hd', Hc'.
  cbn [p_x p_y t_x t_y scale].
  replace (Rmax 0.1 (Rmin 5 (1 * (200 / 100)))) with 2.
  - do 3 f_equal. f_equal; lra.
  - unfold Rmax, Rmin. destruct (Rle_dec 5 _); destruct (Rle_dec 0.1 _); lra. }
repeat split; try assumption.
- rewrite Hm. reflexivity.
- rewrite Hm. reflexivity.
- rewrite Hm. reflexivity.
- rewrite Ht. unfold screenToTarget. simpl. f_equal; lra.
- rewrite Hm. unfold screenToTarget. simpl. f_equal; lra.
- rewrite Hm, Ht. unfold screenToTarget. simpl. intros [= H1 H2]. lra.
Qed.

End Zoom.

(** ** Gestures *)
Section Gestures.

(** The events that end an interaction: the last finger lifting, the
    mouse button coming up. *)
Definition isRelease (e : Event) : bool :=
match e with
| TouchEnd [] => true
| MouseUp => true
| _ => false
end.

(** What may happen while a finger that landed alone is still down:
    further fingers land, fingers move, some but not all fingers lift, a
    timeout fires, the wheel turns. *)
Definition touchInner (e : Event) : bool :=
match e with
| TouchStart _ _ touches => bool_decide (2 <= length touches)%nat
| TouchMove _ _ => true
| TouchEnd touches => bool_decide (1 <= length touches)%nat
| Timeout _ => true
| Wheel _ _ _ _ => true
| _ => false
end.

(** What may happen while the mouse button is down. *)
Definition mouseInner (e : Event) : bool :=
match e with
| MouseMove _ _ _ => true
| Timeout _ => true
| Wheel _ _ _ _ => true
| _ => false
end.

Lemma step_dots_inner (s : State) (e : Event) :
isRelease e = false -> dots (step s e) = dots s.
Proof.
intros H. destruct e; simpl in *; handler_cases; try reflexivity; discriminate.
Qed.

Lemma run_dots_inner (es : list Event) (s : State) :
Forall (fun e => isRelease e = false) es -> dots (run s es) = dots s.
Proof.
unfold run. revert s. induction es as [|e es IH]; intros s H; simpl.
- reflexivity.
- inversion H; subst. rewrite IH by assumption. apply step_dots_inner. assumption.
Qed.

Lemma step_dots_any (s : State) (e : Event) :
dots (step s e) = dots s \/ exists d : Dot, dots (step s e) = dots s ++ [d].
Proof.
destruct e; simpl; handler_cases; eauto.
Qed.

Lemma run_app (s : State) (es es' : list Event) :
run s (es ++ es') = run (run s es) es'.
Proof. unfold run. apply fold_left_app. Qed.

Lemma run_snoc (s : State) (es : list Event) (e : Event) :
run s (es ++ [e]) = step (run s es) e.
Proof. unfold run. rewrite fold_left_app. reflexivity. Qed.

Lemma touchInner_not_release (e : Event) : touchInner e = true -> isRelease e = false.
Proof.
destruct e as [| |touches| | | | |]; simpl; try reflexivity; try discriminate.
destruct touches; [|reflexivity].
intros H. apply bool_decide_eq_true in H. simpl in H. lia.
Qed.

Lemma mouseInner_not_release (e : Event) : mouseInner e = true -> isRelease e = false.
Proof. destruct e; simpl; try reflexivity; discriminate. Qed.

(** *** Tap and long-press drag *)

(** Between interactions: no temporary dot, no timeout scheduled, and a
    browser whose next timer handle is positive. *)
Definition idle (s : State) : Prop :=
temporaryDot s = None /\ timers s = ∅ /\ nextTimer s <> 0%nat.

Lemma truthy_handle_nonzero (n : nat) : n <> 0%nat -> truthy_handle n = true.
Proof. unfold truthy_handle. destruct n; [congruence|reflexivity]. Qed.

(** C4: a pointer-down followed by a pointer-up, with no timeout and no
    second touch in between, appends exactly one non-temporary dot, at the
    board point of the pointer-down position; no temporary dot remains and
    no long-press timer is left pending.  Both for the mouse and for a
    single touch. *)
Theorem tap_places_one_dot
  (s : State) (rect : DOMRect) (now cx cy : R) (touch : Touch) :
idle s ->
let viaMouse := run s [MouseDown (Some rect) now 0 cx cy; MouseUp] in
let viaTouch := run s [TouchStart (Some rect) now [touch]; TouchEnd []] in
let pm := screenToTarget (transform s) (cx - left rect) (cy - top rect) in
let pt := screenToTarget (transform s)
            (clientX touch - left rect) (clientY touch - top rect) in
(dots viaMouse = dots s ++ [mkDot (nextUuid s) (p_x pm) (p_y pm) false false]
 /\ temporaryDot viaMouse = None
 /\ longPressTimer viaMouse = None
 /\ timers viaMouse = ∅)
/\ (dots viaTouch = dots s ++ [mkDot (nextUuid s) (p_x pt) (p_y pt) false false]
    /\ temporaryDot viaTouch = None
    /\ longPressTimer viaTouch = None
    /\ timers viaTouch = ∅).
Proof.
intros (Htemp & Htimers & Hnext). simpl.
unfold handleMouseUp, handleTouchEnd, cancelLongPress. simpl.
rewrite Htemp, Htimers, (truthy_handle_nonzero _ Hnext). simpl.
destruct (draggedDotId s); simpl;
  repeat split; try reflexivity; try assumption;
  rewrite delete_insert_eq, ?Htimers; apply delete_empty.
Qed.

(** Scenario A with the mouse, on a 800 x 600 screen: the board point
    (10, 10) is under the pixel (410, 310). *)
Lemma tap_places_one_dot_witness :
idle (initialState 800 600)
/\ dots (run (initialState 800 600)
           [MouseDown (Some (mkRect 0 0)) 0 0 410 310; MouseUp])
   = [mkDot 0%nat 10 10 false false]
/\ temporaryDot (run (initialState 800 600)
                   [MouseDown (Some (mkRect 0 0)) 0 0 410 310; MouseUp]) = None
/\ timers (run (initialState 800 600)
             [MouseDown (Some (mkRect 0 0)) 0 0 410 310; MouseUp]) = ∅.
Proof.
assert (H : idle (initialState 800 600)).
{ unfold idle. simpl. split; [reflexivity|]. split; [reflexivity|lia]. }
split; [exact H|].
destruct (tap_places_one_dot (initialState 800 600) (mkRect 0 0) 0 410 310
            (mkTouch 410 310) H) as [(Hd & Ht & _ & Hm) _].
split; [|split; assumption].
rewrite Hd. simpl. do 2 f_equal; field.
Defined.

Lemma handleTimeout_scheduled (handle : nat) (cb : TimerCallback) (s : State) :
timers s !! handle = Some cb ->
handleTimeout handle s = runTimer cb (setTimers (delete handle (timers s)) s).
Proof. intros H. unfold handleTimeout. rewrite H. reflexivity. Qed.

Lemma handleTimeout_unscheduled (handle : nat) (s : State) :
timers s !! handle = None -> handleTimeout handle s = s.
Proof. intros H. unfold handleTimeout. rewrite H. reflexivity. Qed.

(** The long press of the mouse: button down, then the timeout. *)
Lemma mouse_long_press (s : State) (rect : DOMRect) (now cx cy : R) :
let down := handleMouseDown (Some rect) now 0 cx cy s in
run s [MouseDown (Some rect) now 0 cx cy; Timeout (nextTimer s)]
= runTimer (MouseLongPress (cx - left rect) (cy - top rect) (transform s))
    (setTimers (delete (nextTimer s) (timers down)) down).
Proof.
intros down. unfold run. cbn [fold_left step].
apply handleTimeout_scheduled. cbn. apply lookup_insert_eq.
Qed.

(** The long press of a finger: it lands alone, then the timeout. *)
Lemma touch_long_press (s : State) (rect : DOMRect) (now : R) (touch : Touch) :
let down := handleTouchStart (Some rect) now [touch] s in
run s [TouchStart (Some rect) now [touch]; Timeout (nextTimer s)]
= runTimer (TouchLongPress (clientX touch - left rect) (clientY touch - top rect)
              (transform s))
    (setTimers (delete (nextTimer s) (timers down)) down).
Proof.
intros down. unfold run. cbn [fold_left step].
apply handleTimeout_scheduled. cbn. apply lookup_insert_eq.
Qed.


(** *** Moves before the long press *)

Definition isMouseMove (e : Event) : bool :=
match e with
| MouseMove _ _ _ => true
| _ => false
end.

Definition isOneTouchMove (e : Event) : bool :=
match e with
| TouchMove _ [_] => true
| _ => false
end.

Lemma pointer_move_noop (s : State) (e : Event) :
temporaryDot s = None ->
isMouseMove e = true \/ isOneTouchMove e = true ->
step s e = s.
Proof.
intros Htemp [H|H]; destruct e as [|? touches| | | | | |]; try discriminate; simpl.
- unfold handleMouseMove. rewrite Htemp. reflexivity.
- destruct touches as [|touch [|]]; try discriminate.
  unfold handleTouchMove. rewrite Htemp. reflexivity.
Qed.

Lemma pointer_moves_noop (moves : list Event) (s : State) :
temporaryDot s = None ->
Forall (fun e => isMouseMove e = true \/ isOneTouchMove e = true) moves ->
run s moves = s.
Proof.
intros Htemp H. unfold run. induction H as [|e moves He _ IH]; simpl.
- reflexivity.
- rewrite (pointer_move_noop s e Htemp He). exact IH.
Qed.

(** C10: while no temporary dot exists, a move of the single pointer
    changes nothing; there is no move threshold, so after any number of
    such moves a release still places the tap dot at the board point of the
    pointer-down position. *)
Theorem move_before_long_press_noop (s : State) :
temporaryDot s = None ->
(forall (rect : option DOMRect) (cx cy : R),
   step s (MouseMove rect cx cy) = s)
/\ (forall (rect : option DOMRect) (touch : Touch),
      step s (TouchMove rect [touch]) = s)
/\ (forall (rect : DOMRect) (now cx cy : R) (moves : list Event),
      Forall (fun e => isMouseMove e = true) moves ->
      let p := screenToTarget (transform s) (cx - left rect) (cy - top rect) in
      run (step s (MouseDown (Some rect) now 0 cx cy)) moves
      = step s (MouseDown (Some rect) now 0 cx cy)
      /\ dots (run s (MouseDown (Some rect) now 0 cx cy :: moves ++ [MouseUp]))
         = dots s ++ [mkDot (nextUuid s) (p_x p) (p_y p) false false])
/\ (forall (rect : DOMRect) (now : R) (touch : Touch) (moves : list Event),
      Forall (fun e => isOneTouchMove e = true) moves ->
      let p := screenToTarget (transform s)
                 (clientX touch - left rect) (clientY touch - top rect) in
      run (step s (TouchStart (Some rect) now [touch])) moves
      = step s (TouchStart (Some rect) now [touch])
      /\ dots (run s (TouchStart (Some rect) now [touch] :: moves ++ [TouchEnd []]))
         = dots s ++ [mkDot (nextUuid s) (p_x p) (p_y p) false false]).
Proof.
intros Htemp. split; [|split; [|split]].
- intros rect cx cy. apply pointer_move_noop; [assumption|left; reflexivity].
- intros rect touch. apply pointer_move_noop; [assumption|right; reflexivity].
- intros rect now cx cy moves Hmoves p.
  assert (Hrun : run (step s (MouseDown (Some rect) now 0 cx cy)) moves
                 = step s (MouseDown (Some rect) now 0 cx cy)).
  { apply pointer_moves_noop; [exact Htemp|].
    eapply Forall_impl; [exact Hmoves|]. intros e He. left. exact He. }
  split; [exact Hrun|].
  change (run s (MouseDown (Some rect) now 0 cx cy :: moves ++ [MouseUp]))
    with (run (step s (MouseDown (Some rect) now 0 cx cy)) (moves ++ [MouseUp])).
  rewrite run_snoc, Hrun. simpl.
  unfold handleMouseUp, cancelLongPress. simpl. rewrite Htemp.
  destruct (truthy_handle (nextTimer s)); reflexivity.
- intros rect now touch moves Hmoves p.
  assert (Hrun : run (step s (TouchStart (Some rect) now [touch])) moves
                 = step s (TouchStart (Some rect) now [touch])).
  { apply pointer_moves_noop; [exact Htemp|].
    eapply Forall_impl; [exact Hmoves|]. intros e He. right. exact He. }
  split; [exact Hrun|].
  change (run s (TouchStart (Some rect) now [touch] :: moves ++ [TouchEnd []]))
    with (run (step s (TouchStart (Some rect) now [touch])) (moves ++ [TouchEnd []])).
  rewrite run_snoc, Hrun. simpl.
  unfold handleTouchEnd, cancelLongPress. simpl. rewrite Htemp.
  destruct (truthy_handle (nextTimer s)); destruct (draggedDotId s); reflexivity.
Qed.

(** On a 800 x 600 screen: press at the pixel over the board point
    (10, 10), wander off, release. *)
Lemma move_before_long_press_noop_witness :
temporaryDot (initialState 800 600) = None
/\ dots (run (initialState 800 600)
           (MouseDown (Some (mkRect 0 0)) 0 0 410 310
              :: [MouseMove (Some (mkRect 0 0)) 500 500;
                  MouseMove (Some (mkRect 0 0)) 90 20]
              ++ [MouseUp]))
   = [mkDot 0%nat 10 10 false false].
Proof.
assert (H : temporaryDot (initialState 800 600) = None) by reflexivity.
split; [exact H|].
destruct (move_before_long_press_noop (initialState 800 600) H)
  as (_ & _ & Hmouse & _).
destruct (Hmouse (mkRect 0 0) 0 410 310
            [MouseMove (Some (mkRect 0 0)) 500 500;
             MouseMove (Some (mkRect 0 0)) 90 20]) as [_ Hd].
- repeat constructor.
- rewrite Hd. cbn. do 2 f_equal; field.
Defined.

(** *** While a pointer is down *)

(** Cancelling the long press touches the timer cell and the timer table
    only. *)
Lemma cancelLongPress_shape (s : State) :
exists (cell : option nat) (table : gmap nat TimerCallback),
  cancelLongPress s = setLongPressTimer cell (setTimers table s).
Proof.
unfold cancelLongPress.
destruct (longPressTimer s) as [timer|] eqn:Hl.
- destruct (truthy_handle timer).
  + eexists _, _. reflexivity.
  + exists (longPressTimer s), (timers s). destruct s. reflexivity.
- exists (longPressTimer s), (timers s). destruct s. reflexivity.
Qed.

(** While the finger that landed alone at [(x, y)] is down: the dot list
    is untouched, the touch-start record is in place, and a temporary dot
    exists only with its dragged id, and only once the record says that
    the long press fired. *)
Definition touchPressed (before : State) (x y : R) (s : State) : Prop :=
dots s = dots before
/\ exists info : TouchStartInfo,
     touchStartInfo s = Some info
     /\ ts_x info = x /\ ts_y info = y
     /\ match temporaryDot s with
        | None => ts_longPress info = false
        | Some _ => is_Some (draggedDotId s)
        end.

Lemma touchPressed_start (s : State) (rect : DOMRect) (now : R) (touch : Touch) :
temporaryDot s = None ->
touchPressed s (clientX touch - left rect) (clientY touch - top rect)
  (step s (TouchStart (Some rect) now [touch])).
Proof.
intros H. unfold touchPressed. simpl. split; [reflexivity|].
eexists. split; [reflexivity|]. rewrite H. repeat split; reflexivity.
Qed.

Lemma touchPressed_step (before : State) (x y : R) (s : State) (e : Event) :
touchInner e = true ->
touchPressed before x y s -> touchPressed before x y (step s e).
Proof.
intros He (Hdots & info & Hinfo & Hx & Hy & Htemp).
unfold touchPressed.
rewrite (step_dots_inner s e (touchInner_not_release e He)).
split; [exact Hdots|].
assert (Hkeep : exists info' : TouchStartInfo,
          touchStartInfo s = Some info' /\ ts_x info' = x /\ ts_y info' = y
          /\ match temporaryDot s with
             | None => ts_longPress info' = false
             | Some _ => is_Some (draggedDotId s)
             end) by eauto.
destruct e as [rect now touches|rect touches|touches| | | | |handle];
  try discriminate; cbn [step touchInner] in He |- *.
- destruct touches as [|t1 [|t2 [|t3 rest]]];
    try (apply bool_decide_eq_true in He; simpl in He; lia);
    unfold handleTouchStart; [|exact Hkeep].
  destruct (cancelLongPress_shape s) as (cell & table & ->).
  destruct rect; state_cbn; exact Hkeep.
- unfold handleTouchMove, dragTemporaryDot.
  destruct touches as [|t1 [|t2 [|t3 rest]]]; try exact Hkeep.
  + clear Hkeep.
    destruct (temporaryDot s) as [t|] eqn:Ht;
      [|rewrite Ht; exists info; repeat split; assumption].
    destruct (draggedDotId s) as [d|] eqn:Hd;
      [|rewrite Ht, Hd; exists info; repeat split; assumption].
    destruct rect; state_cbn; rewrite ?Ht, ?Hd;
      exists info; repeat split; assumption.
  + destruct (lastTouchDistance s); [|exact Hkeep].
    destruct (lastTouchCenter s); [|exact Hkeep].
    destruct (truthy _); [|exact Hkeep].
    destruct rect; [|exact Hkeep]. state_cbn. exact Hkeep.
- unfold handleTouchEnd.
  destruct touches as [|t1 rest];
    [apply bool_decide_eq_true in He; simpl in He; lia|].
  destruct (cancelLongPress_shape s) as (cell & table & ->).
  state_cbn. exact Hkeep.
- unfold handleWheel. state_cbn. exact Hkeep.
- unfold handleTimeout.
  destruct (timers s !! handle) as [[cx cy tr|cx cy tr]|]; [| |exact Hkeep];
    unfold runTimer, uuidv4; state_cbn; rewrite Hinfo.
  + eexists. repeat split; eauto.
  + exists info. repeat split; eauto.
Qed.

Lemma touchPressed_run (before : State) (x y : R) (inner : list Event) (s : State) :
Forall (fun e => touchInner e = true) inner ->
touchPressed before x y s -> touchPressed before x y (run s inner).
Proof.
unfold run. intros H. revert s.
induction H as [|e inner He _ IH]; intros s Hs; simpl.
- exact Hs.
- apply IH, touchPressed_step; assumption.
Qed.

(** While the mouse button pressed at [(x, y)] is down. *)
Definition mousePressed (before : State) (x y : R) (s : State) : Prop :=
dots s = dots before
/\ exists info : MouseDownInfo,
     mouseDownInfo s = Some info
     /\ m_x info = x /\ m_y info = y
     /\ match temporaryDot s with
        | None => m_longPress info = false
        | Some _ => is_Some (draggedDotId s)
        end.

Lemma mousePressed_start (s : State) (rect : DOMRect) (now cx cy : R) :
temporaryDot s = None ->
mousePressed s (cx - left rect) (cy - top rect)
  (step s (MouseDown (Some rect) now 0 cx cy)).
Proof.
intros H. unfold mousePressed. simpl. split; [reflexivity|].
eexists. split; [reflexivity|]. rewrite H. repeat split; reflexivity.
Qed.

Lemma mousePressed_step (before : State) (x y : R) (s : State) (e : Event) :
mouseInner e = true ->
mousePressed before x y s -> mousePressed before x y (step s e).
Proof.
intros He (Hdots & info & Hinfo & Hx & Hy & Htemp).
unfold mousePressed.
rewrite (step_dots_inner s e (mouseInner_not_release e He)).
split; [exact Hdots|].
destruct e as [| | | |rect cx cy| |rect cx cy deltaY|handle];
  try discriminate; cbn [step].
- unfold handleMouseMove, dragTemporaryDot.
  destruct (temporaryDot s) as [t|] eqn:Ht;
    [|rewrite Ht; exists info; repeat split; assumption].
  destruct (draggedDotId s) as [d|] eqn:Hd;
    [|rewrite Ht, Hd; exists info; repeat split; assumption].
  destruct rect; state_cbn; rewrite ?Ht, ?Hd;
    exists info; repeat split; assumption.
- unfold handleWheel. state_cbn. exists info. repeat split; assumption.
- unfold handleTimeout.
  destruct (timers s !! handle) as [[cx cy tr|cx cy tr]|];
    [| |exists info; repeat split; assumption];
    unfold runTimer, uuidv4; state_cbn; rewrite ?Hinfo.
  + exists info. repeat split; eauto.
  + eexists. repeat split; eauto.
Qed.

Lemma mousePressed_run (before : State) (x y : R) (inner : list Event) (s : State) :
Forall (fun e => mouseInner e = true) inner ->
mousePressed before x y s -> mousePressed before x y (run s inner).
Proof.
unfold run. intros H. revert s.
induction H as [|e inner He _ IH]; intros s Hs; simpl.
- exact Hs.
- apply IH, mousePressed_step; assumption.
Qed.

(** *** A second touch while the long press is pending *)

(** After the second finger landed in time: no temporary dot, the pinch
    flag set, and nothing left in the timer table that could still fire. *)
Definition pinching (before s : State) : Prop :=
dots s = dots before
/\ temporaryDot s = None
/\ wasPinch s = true
/\ timers s = ∅.

Lemma cancelLongPress_no_timers (s : State) :
timers s = ∅ ->
exists cell : option nat,
  cancelLongPress s = setLongPressTimer cell (setTimers ∅ s).
Proof.
intros H. unfold cancelLongPress, clearTimeout.
destruct (longPressTimer s) as [timer|] eqn:Hl.
- destruct (truthy_handle timer).
  + exists None. rewrite H, delete_empty. reflexivity.
  + exists (longPressTimer s). destruct s. simpl in *. subst. reflexivity.
- exists (longPressTimer s). destruct s. simpl in *. subst. reflexivity.
Qed.

Lemma second_touch_cancels
  (s : State) (rect : DOMRect) (now : R) (touch : Touch)
  (rect2 : option DOMRect) (now2 : R) (touch1 touch2 : Touch) :
idle s ->
let pending := step s (TouchStart (Some rect) now [touch]) in
let second := step pending (TouchStart rect2 now2 [touch1; touch2]) in
(longPressTimer pending = Some (nextTimer s)
 /\ is_Some (timers pending !! nextTimer s))
/\ longPressTimer second = None
/\ timers second = ∅
/\ (is_Some rect2 -> pinching s second).
Proof.
intros (Htemp & Htimers & Hnext) pending second.
split.
- split; [reflexivity|]. unfold pending. cbn.
  rewrite lookup_insert_eq. eexists. reflexivity.
- assert (Hcancel : cancelLongPress pending
                    = setLongPressTimer None (setTimers ∅ pending)).
  { unfold cancelLongPress, clearTimeout, pending. cbn.
    rewrite (truthy_handle_nonzero _ Hnext), delete_insert_eq, Htimers, delete_empty.
    reflexivity. }
  unfold second. cbn [step]. unfold handleTouchStart. rewrite Hcancel.
  destruct rect2 as [r2|]; state_cbn.
  + split; [reflexivity|]. split; [reflexivity|]. intros _.
    unfold pinching. state_cbn. repeat split; try reflexivity. exact Htemp.
  + split; [reflexivity|]. split; [reflexivity|]. intros [? ?]. discriminate.
Qed.

Lemma pinching_step (before s : State) (e : Event) :
touchInner e = true -> pinching before s -> pinching before (step s e).
Proof.
intros He (Hdots & Htemp & Hpinch & Htimers).
assert (Hkeep : pinching before s) by (repeat split; assumption).
destruct e as [rect now touches|rect touches|touches| | | | |handle];
  try discriminate; cbn [step touchInner] in He |- *.
- destruct touches as [|t1 [|t2 [|t3 rest]]];
    try (apply bool_decide_eq_true in He; simpl in He; lia);
    unfold handleTouchStart; [|exact Hkeep].
  destruct (cancelLongPress_no_timers s Htimers) as (cell & ->).
  destruct rect; repeat split; state_cbn; assumption || reflexivity.
- unfold handleTouchMove.
  destruct touches as [|t1 [|t2 [|t3 rest]]]; try exact Hkeep.
  + rewrite Htemp. exact Hkeep.
  + destruct (lastTouchDistance s); [|exact Hkeep].
    destruct (lastTouchCenter s); [|exact Hkeep].
    destruct (truthy _); [|exact Hkeep].
    destruct rect; [|exact Hkeep].
    repeat split; state_cbn; assumption.
- unfold handleTouchEnd.
  destruct touches as [|t1 rest];
    [apply bool_decide_eq_true in He; simpl in He; lia|].
  destruct (cancelLongPress_no_timers s Htimers) as (cell & ->).
  repeat split; state_cbn; assumption || reflexivity.
- unfold handleWheel. repeat split; state_cbn; assumption.
- rewrite handleTimeout_unscheduled; [exact Hkeep|].
  rewrite Htimers. apply lookup_empty.
Qed.

Lemma pinching_run (before : State) (inner : list Event) (s : State) :
Forall (fun e => touchInner e = true) inner ->
pinching before s -> pinching before (run s inner).
Proof.
unfold run. intros H. revert s.
induction H as [|e inner He _ IH]; intros s Hs; simpl.
- exact Hs.
- apply IH, pinching_step; assumption.
Qed.

Lemma pinching_release (before s : State) :
pinching before s -> dots (step s (TouchEnd [])) = dots before.
Proof.
intros (Hdots & Htemp & Hpinch & Htimers).
cbn [step]. unfold handleTouchEnd.
destruct (cancelLongPress_no_timers s Htimers) as (cell & ->).
rewrite Htemp, Hpinch.
destruct (draggedDotId s); destruct (touchStartInfo s);
  rewrite ?andb_false_r; state_cbn; exact Hdots.
Qed.

Lemma two_touch_start_pinching
  (s : State) (rect : DOMRect) (now : R) (touch1 touch2 : Touch) :
idle s -> pinching s (step s (TouchStart (Some rect) now [touch1; touch2])).
Proof.
intros (Htemp & Htimers & _). cbn [step]. unfold handleTouchStart.
destruct (cancelLongPress_no_timers s Htimers) as (cell & ->).
unfold pinching. state_cbn. repeat split; assumption || reflexivity.
Qed.

(** An interaction, whatever its events, appends at most one dot: the
    events before the release append none, the release at most one. *)
Lemma interaction_appends_at_most_one_dot
  (s : State) (inner : list Event) (release : Event) :
Forall (fun e => isRelease e = false) inner ->
let after := run s (inner ++ [release]) in
dots after = dots s \/ exists d : Dot, dots after = dots s ++ [d].
Proof.
intros Hinner after. unfold after. rewrite run_snoc.
destruct (step_dots_any (run s inner) release) as [H|[d H]];
  rewrite H, (run_dots_inner inner s Hinner); eauto.
Qed.

(** A second touch that arrives while the long-press timer is pending
    cancels the timer first, whatever else the handler then does; with a
    canvas in place the interaction is then a pinch, no temporary dot
    appears and the release of the last finger creates no dot. *)
Lemma second_touch_in_time_creates_no_dot
  (s : State) (rect : DOMRect) (now : R) (touch : Touch)
  (rect2 : option DOMRect) (now2 : R) (touch1 touch2 : Touch)
  (rest : list Event) :
idle s ->
Forall (fun e => touchInner e = true) rest ->
let pending := step s (TouchStart (Some rect) now [touch]) in
let second := step pending (TouchStart rect2 now2 [touch1; touch2]) in
let atRelease := run second rest in
(longPressTimer pending = Some (nextTimer s)
 /\ is_Some (timers pending !! nextTimer s))
/\ longPressTimer second = None
/\ timers second = ∅
/\ (is_Some rect2 ->
    temporaryDot atRelease = None
    /\ wasPinch atRelease = true
    /\ dots (step atRelease (TouchEnd [])) = dots s).
Proof.
intros Hidle Hrest pending second atRelease.
destruct (second_touch_cancels s rect now touch rect2 now2 touch1 touch2 Hidle)
  as (Hpending & Hcell & Htable & Hpinch).
split; [exact Hpending|]. split; [exact Hcell|]. split; [exact Htable|].
intros Hrect.
assert (Hat : pinching s atRelease)
  by (apply pinching_run; [exact Hrest|apply Hpinch, Hrect]).
split; [apply Hat|]. split; [apply Hat|apply pinching_release, Hat].
Qed.

(** *** The scenarios on a 800 x 600 screen *)

Lemma initialState_idle (width height : R) : idle (initialState width height).
Proof. unfold idle. cbn. split; [reflexivity|]. split; [reflexivity|lia]. Qed.

(** Scenario D: a finger lands, a second one lands before the timeout,
    they spread, they lift one after the other: no dot. *)
Example second_touch_in_time_places_no_dot :
dots (run (initialState 800 600)
        [TouchStart (Some (mkRect 0 0)) 0 [mkTouch 410 310];
         TouchStart (Some (mkRect 0 0)) 1 [mkTouch 410 310; mkTouch 510 310];
         TouchMove (Some (mkRect 0 0)) [mkTouch 410 310; mkTouch 610 310];
         Timeout 1;
         TouchEnd [mkTouch 410 310];
         TouchEnd []])
= [].
Proof.
change (dots (step
          (run (step (step (initialState 800 600)
                        (TouchStart (Some (mkRect 0 0)) 0 [mkTouch 410 310]))
                  (TouchStart (Some (mkRect 0 0)) 1
                     [mkTouch 410 310; mkTouch 510 310]))
             [TouchMove (Some (mkRect 0 0)) [mkTouch 410 310; mkTouch 610 310];
              Timeout 1;
              TouchEnd [mkTouch 410 310]])
          (TouchEnd []))
        = dots (initialState 800 600)).
apply pinching_release, pinching_run.
- repeat constructor.
- apply second_touch_cancels; [apply initialState_idle|eexists; reflexivity].
Qed.

End Gestures.

(** * Further properties of the code *)

(** ** Rings, distances and midpoints *)
Section Kernel.

(** X1: The rings tile the disc: there are ten of them, one per colour, each
    knows its own position, is one gap wide, starts where the next one
    ends, and the last one reaches the centre. *)
Theorem getRings_tile :
length getRings = length ringColors
/\ length getRings = 10%nat
/\ (forall (i : nat) (ring : RingInfo),
      getRings !! i = Some ring ->
      index ring = i
      /\ ringColors !! i = Some (color ring)
      /\ outerRadius ring - innerRadius ring = ringGap
      /\ 0 <= innerRadius ring < outerRadius ring
      /\ outerRadius ring <= initialRingRadius)
/\ (forall (i : nat) (ring next : RingInfo),
      getRings !! i = Some ring -> getRings !! S i = Some next ->
      innerRadius ring = outerRadius next)
/\ (innerRadius <$> last getRings) = Some 0.
Proof.
split; [reflexivity|]. split; [reflexivity|]. split; [|split].
- intros i ring H.
  pose proof (getRings_lookup i ring H) as (Hlt & Ho & Hi).
  assert (Hn : INR i <= 9).
  { replace 9 with (INR 9) by (simpl; lra). apply le_INR. lia. }
  pose proof (pos_INR i) as Hp.
  split; [|split; [|split; [|split]]].
  + revert H. unfold getRings, ringColors.
    do 10 (destruct i as [|i]; [intros [= <-]; reflexivity|]). discriminate.
  + revert H. unfold getRings, ringColors.
    do 10 (destruct i as [|i]; [intros [= <-]; reflexivity|]). discriminate.
  + rewrite Hi. lra.
  + rewrite Hi, Ho. unfold initialRingRadius, ringGap. lra.
  + rewrite Ho. unfold initialRingRadius, ringGap. lra.
- intros i ring next H Hnext.
  apply getRings_lookup in H as (_ & Ho & Hi).
  apply getRings_lookup in Hnext as (_ & Ho' & _).
  rewrite Hi, Ho, Ho', S_INR. unfold initialRingRadius, ringGap. lra.
- unfold getRings, ringColors, initialRingRadius, ringGap. cbn.
  f_equal. lra.
Qed.

(** X2: In binary64, [getRingAtPoint] looks at the computed distance only,
    answers with an index below ten, and never gives the point with the
    larger computed distance the ring nearer the centre. *)
Theorem getRingAtPoint_by_computed_distance :
  (forall x1 y1 x2 y2 : Double.number,
     Double.distanceFromCentre x1 y1 = Double.distanceFromCentre x2 y2 ->
     Double.getRingAtPoint x1 y1 = Double.getRingAtPoint x2 y2)
  /\ (forall (x y : Double.number) (i : nat),
        Double.getRingAtPoint x y = Some i -> (i < 10)%nat)
  /\ (forall (x1 y1 x2 y2 : Double.number) (i j : nat),
        Double.getRingAtPoint x1 y1 = Some i ->
        Double.getRingAtPoint x2 y2 = Some j ->
        Double.leb (Double.distanceFromCentre x1 y1)
                   (Double.distanceFromCentre x2 y2) = true ->
        (j <= i)%nat).
Proof.
  split; [|split].
  - intros x1 y1 x2 y2 Hd. unfold Double.getRingAtPoint.
    unfold Double.distanceFromCentre in Hd. rewrite Hd. reflexivity.
  - intros x y i H. unfold Double.getRingAtPoint in H.
    apply double_ringLoop_Some in H as (j & ring & -> & Hl & _).
    apply double_getRings_lookup in Hl as (Hlt & _). lia.
  - intros x1 y1 x2 y2 i j Hi Hj Hle.
    unfold Double.getRingAtPoint in Hi, Hj.
    apply double_ringLoop_Some in Hi as (i' & ri & -> & Hli & [Hi1 Hi2] & _).
    apply double_ringLoop_Some in Hj as (j' & rj & -> & Hlj & [Hj1 Hj2] & _).
    change (Double.Math_sqrt (Double.add (Double.mul x1 x1) (Double.mul y1 y1)))
      with (Double.distanceFromCentre x1 y1) in *.
    change (Double.Math_sqrt (Double.add (Double.mul x2 x2) (Double.mul y2 y2)))
      with (Double.distanceFromCentre x2 y2) in *.
    destruct (le_lt_dec j' i') as [Hok | Hlt]; [lia|exfalso].
    pose proof (double_getRings_descend i' j' ri rj Hli Hlj Hlt) as Hd.
    pose proof (double_ltb_leb_trans _ _ _ Hi1 Hle) as H1.
    pose proof (double_ltb_leb_trans _ _ _ H1 Hj2) as H2.
    pose proof (double_ltb_leb_trans _ _ _ H2 Hd) as Hc.
    rewrite double_ltb_irrefl in Hc. discriminate.
Qed.

Lemma getDistance_nonneg (x1 y1 x2 y2 : R) : 0 <= getDistance x1 y1 x2 y2.
Proof. unfold getDistance. apply sqrt_pos. Qed.

Lemma getDistance_sqr (x1 y1 x2 y2 : R) :
getDistance x1 y1 x2 y2 * getDistance x1 y1 x2 y2
= (x2 - x1) * (x2 - x1) + (y2 - y1) * (y2 - y1).
Proof.
unfold getDistance. rewrite sqrt_sqrt; [ring|].
apply Rplus_le_le_0_compat; apply pow2_ge_0.
Qed.

(** X3: Within floating tolerance, that is over the real numbers that the
    doubles approximate, [getDistance] is a metric on the plane: never
    negative, zero between a point and itself only, the same in both
    directions, and no longer through a third point than directly. *)
Theorem getDistance_metric (x1 y1 x2 y2 x3 y3 : R) :
0 <= getDistance x1 y1 x2 y2
/\ (getDistance x1 y1 x2 y2 = 0 <-> x1 = x2 /\ y1 = y2)
/\ getDistance x1 y1 x2 y2 = getDistance x2 y2 x1 y1
/\ getDistance x1 y1 x3 y3 <= getDistance x1 y1 x2 y2 + getDistance x2 y2 x3 y3.
Proof.
split; [apply getDistance_nonneg|]. split; [|split].
- split.
  + intros H. pose proof (getDistance_sqr x1 y1 x2 y2) as Hs.
    rewrite H in Hs.
    pose proof (Rle_0_sqr (x2 - x1)) as Hx. pose proof (Rle_0_sqr (y2 - y1)) as Hy.
    unfold Rsqr in Hx, Hy.
    assert (Ha : (x2 - x1) * (x2 - x1) = 0) by lra.
    assert (Hb : (y2 - y1) * (y2 - y1) = 0) by lra.
    apply Rmult_integral in Ha. apply Rmult_integral in Hb.
    split; lra.
  + intros [-> ->]. unfold getDistance.
    replace ((x2 - x2) ^ 2 + (y2 - y2) ^ 2) with 0 by ring. apply sqrt_0.
- unfold getDistance. f_equal. ring.
- pose proof (getDistance_nonneg x1 y1 x2 y2) as Hu.
  pose proof (getDistance_nonneg x2 y2 x3 y3) as Hv.
  pose proof (getDistance_nonneg x1 y1 x3 y3) as Hw.
  pose proof (getDistance_sqr x1 y1 x2 y2) as Hu2.
  pose proof (getDistance_sqr x2 y2 x3 y3) as Hv2.
  pose proof (getDistance_sqr x1 y1 x3 y3) as Hw2.
  set (u := getDistance x1 y1 x2 y2) in *.
  set (v := getDistance x2 y2 x3 y3) in *.
  set (w := getDistance x1 y1 x3 y3) in *.
  set (a := x2 - x1) in *. set (b := y2 - y1) in *.
  set (c := x3 - x2) in *. set (d := y3 - y2) in *.
  assert (Hw3 : w * w = (a + c) * (a + c) + (b + d) * (b + d))
    by (rewrite Hw2; unfold a, b, c, d; ring).
  assert (Hcs : a * c + b * d <= u * v).
  { apply Rsqr_incr_0_var; [|nra]. unfold Rsqr.
    replace ((u * v) * (u * v)) with ((u * u) * (v * v)) by ring.
    rewrite Hu2, Hv2.
    pose proof (Rle_0_sqr (a * d - b * c)) as Hdet. unfold Rsqr in Hdet.
    lra. }
  apply Rsqr_incr_0_var; [|lra]. unfold Rsqr. rewrite Hw3. nra.
Qed.

(** X4: Within floating tolerance, that is over the real numbers that the
    doubles approximate, the midpoint of two touches lies halfway: it is
    as far from the one as from the other, half their distance, and does
    not depend on which finger comes first. *)
Theorem getCenter_halfway (x1 y1 x2 y2 : R) :
let c := getCenter x1 y1 x2 y2 in
getDistance (p_x c) (p_y c) x1 y1 = getDistance x1 y1 x2 y2 / 2
/\ getDistance (p_x c) (p_y c) x2 y2 = getDistance x1 y1 x2 y2 / 2
/\ getCenter x2 y2 x1 y1 = c.
Proof.
intros c. unfold c, getCenter. cbn [p_x p_y].
assert (Hhalf : forall a b : R,
          sqrt ((a / 2) ^ 2 + (b / 2) ^ 2) = sqrt (a ^ 2 + b ^ 2) / 2).
{ intros a b.
  replace ((a / 2) ^ 2 + (b / 2) ^ 2) with ((a ^ 2 + b ^ 2) * ((/ 2) * (/ 2)))
    by field.
  rewrite sqrt_mult_alt by nra. rewrite sqrt_square by lra. reflexivity. }
split; [|split].
- unfold getDistance.
  replace (x1 - (x1 + x2) / 2) with (- (x2 - x1) / 2) by field.
  replace (y1 - (y1 + y2) / 2) with (- (y2 - y1) / 2) by field.
  rewrite Hhalf. do 2 f_equal. ring.
- unfold getDistance.
  replace (x2 - (x1 + x2) / 2) with ((x2 - x1) / 2) by field.
  replace (y2 - (y1 + y2) / 2) with ((y2 - y1) / 2) by field.
  apply Hhalf.
- f_equal; field.
Qed.

End Kernel.

(** ** The enclosing circle *)
Section Enclosing.

Lemma foldr_Rplus_Permutation (l1 l2 : list R) :
l1 ≡ₚ l2 -> foldr Rplus 0 l1 = foldr Rplus 0 l2.
Proof.
induction 1 as [|x l1 l2 _ IH|x y l|l1 l2 l3 _ IH1 _ IH2]; simpl.
- reflexivity.
- rewrite IH. reflexivity.
- lra.
- congruence.
Qed.

Lemma mean_Permutation (l1 l2 : list R) : l1 ≡ₚ l2 -> mean l1 = mean l2.
Proof.
intros H. unfold mean.
rewrite (foldr_Rplus_Permutation l1 l2 H), (Permutation_length H). reflexivity.
Qed.

Lemma Math_max_Permutation (a b : R) (l k : list R) :
a :: l ≡ₚ b :: k -> Math_max a l = Math_max b k.
Proof.
intros H. apply Rle_antisym.
- pose proof (Math_max_attained a l) as Hin. rewrite H in Hin.
  apply elem_of_cons in Hin as [->|Hin];
    [apply Math_max_ge_first|apply Math_max_ge, Hin].
- pose proof (Math_max_attained b k) as Hin. rewrite <- H in Hin.
  apply elem_of_cons in Hin as [->|Hin];
    [apply Math_max_ge_first|apply Math_max_ge, Hin].
Qed.

(** X5: Within floating tolerance, that is over the real numbers that the
    doubles approximate, the enclosing circle does not depend on the order
    in which the dots were placed. *)
Theorem calculateEnclosingCircle_Permutation (l1 l2 : list Dot) :
l1 ≡ₚ l2 -> calculateEnclosingCircle l1 = calculateEnclosingCircle l2.
Proof.
intros H.
destruct l1 as [|d1 ds1]; destruct l2 as [|d2 ds2].
- reflexivity.
- apply Permutation_nil_l in H. discriminate.
- apply Permutation_nil_r in H. discriminate.
- rewrite !calculateEnclosingCircle_cons.
  rewrite (mean_Permutation (map d_x (d1 :: ds1)) (map d_x (d2 :: ds2)))
    by (apply fmap_Permutation, H).
  rewrite (mean_Permutation (map d_y (d1 :: ds1)) (map d_y (d2 :: ds2)))
    by (apply fmap_Permutation, H).
  do 2 f_equal.
  apply Math_max_Permutation.
  change (map (distanceTo
                 (mkCircle (mean (map d_x (d2 :: ds2))) (mean (map d_y (d2 :: ds2))) 0))
            (d1 :: ds1)
          ≡ₚ map (distanceTo
                    (mkCircle (mean (map d_x (d2 :: ds2)))
                       (mean (map d_y (d2 :: ds2))) 0))
               (d2 :: ds2)).
  apply fmap_Permutation, H.
Qed.

Lemma calculateEnclosingCircle_Permutation_witness :
[mkDot 0%nat 0 0 false false; mkDot 1%nat 10 0 false false]
≡ₚ [mkDot 1%nat 10 0 false false; mkDot 0%nat 0 0 false false]
/\ calculateEnclosingCircle
     [mkDot 0%nat 0 0 false false; mkDot 1%nat 10 0 false false]
   = calculateEnclosingCircle
       [mkDot 1%nat 10 0 false false; mkDot 0%nat 0 0 false false].
Proof.
assert (H : [mkDot 0%nat 0 0 false false; mkDot 1%nat 10 0 false false]
            ≡ₚ [mkDot 1%nat 10 0 false false; mkDot 0%nat 0 0 false false])
  by apply perm_swap.
split; [exact H|exact (calculateEnclosingCircle_Permutation _ _ H)].
Defined.

Lemma calculateEnclosingCircle_encloses (l : list Dot) (c : Circle) :
calculateEnclosingCircle l = Some c ->
0 <= radius c /\ forall q : Dot, q ∈ l -> distanceTo c q <= radius c.
Proof.
destruct l as [|d ds]; [discriminate|].
rewrite calculateEnclosingCircle_cons. intros [= <-]. cbn [radius].
set (c0 := mkCircle _ _ 0).
split.
- eapply Rle_trans; [|apply Math_max_ge_first]. unfold distanceTo. apply sqrt_pos.
- intros q Hq. change (distanceTo c0 q <= Math_max (distanceTo c0 d)
                                             (map (distanceTo c0) ds)).
  apply elem_of_cons in Hq as [->|Hq].
  + apply Math_max_ge_first.
  + apply Math_max_ge, list_elem_of_fmap. exists q. split; [reflexivity|exact Hq].
Qed.

(** X6: The circle kept by the effect: there is none exactly when nothing is
    on the board, not even a temporary dot; otherwise it holds every
    committed dot and the temporary dot within its radius. *)
Theorem enclosingCircle_current (s : State) :
(enclosingCircle s = None <-> dots s = [] /\ temporaryDot s = None)
/\ forall c : Circle,
     enclosingCircle s = Some c ->
     0 <= radius c
     /\ (forall d : Dot, d ∈ dots s -> distanceTo c d <= radius c)
     /\ (forall t : Dot, temporaryDot s = Some t -> distanceTo c t <= radius c).
Proof.
unfold enclosingCircle. split.
- destruct (temporaryDot s) as [t|]; split.
  + destruct (dots s); simpl; rewrite calculateEnclosingCircle_cons; discriminate.
  + intros [_ H]. discriminate.
  + destruct (dots s) as [|d ds]; [intros _; split; reflexivity|].
    rewrite calculateEnclosingCircle_cons. discriminate.
  + intros [-> _]. reflexivity.
- intros c H. apply calculateEnclosingCircle_encloses in H as [Hr Hin].
  split; [exact Hr|]. split.
  + intros d Hd. apply Hin. destruct (temporaryDot s); [|exact Hd].
    apply elem_of_app. left. exact Hd.
  + intros t Ht. apply Hin. rewrite Ht.
    apply elem_of_app. right. apply list_elem_of_here.
Qed.

End Enclosing.

(** ** The transform as a similarity *)
Section Similarity.

(** X7: Within floating tolerance, that is over the real numbers that the
    doubles approximate: at a positive scale, [targetToScreen] undoes
    [screenToTarget] from the other side too, and stretches every distance
    by the scale: a ring of board radius r shows with screen radius r
    times the scale, around the screen point of the board's centre. *)
Theorem targetToScreen_similarity (T : TransformProps) (x1 y1 x2 y2 : R) :
0 < scale T ->
let p1 := targetToScreen T x1 y1 in
let p2 := targetToScreen T x2 y2 in
screenToTarget T (p_x p1) (p_y p1) = mkPoint x1 y1
/\ getDistance (p_x p1) (p_y p1) (p_x p2) (p_y p2)
   = scale T * getDistance x1 y1 x2 y2
/\ targetToScreen T 0 0 = mkPoint (t_x T) (t_y T).
Proof.
intros Hs p1 p2. unfold p1, p2, targetToScreen, screenToTarget. cbn [p_x p_y].
split; [|split].
- f_equal; field; lra.
- unfold getDistance.
  replace ((x2 * scale T + t_x T - (x1 * scale T + t_x T)) ^ 2
           + (y2 * scale T + t_y T - (y1 * scale T + t_y T)) ^ 2)
    with ((scale T * scale T) * ((x2 - x1) ^ 2 + (y2 - y1) ^ 2)) by ring.
  rewrite sqrt_mult_alt by nra. rewrite sqrt_square by lra. reflexivity.
- f_equal; ring.
Qed.

Lemma targetToScreen_similarity_witness :
0 < scale (mkTransform 400 300 2)
/\ getDistance
     (p_x (targetToScreen (mkTransform 400 300 2) 0 0))
     (p_y (targetToScreen (mkTransform 400 300 2) 0 0))
     (p_x (targetToScreen (mkTransform 400 300 2) 180 0))
     (p_y (targetToScreen (mkTransform 400 300 2) 180 0))
   = scale (mkTransform 400 300 2) * getDistance 0 0 180 0.
Proof.
assert (H : 0 < scale (mkTransform 400 300 2)) by (simpl; lra).
split; [exact H|].
apply (targetToScreen_similarity (mkTransform 400 300 2) 0 0 180 0 H).
Defined.

End Similarity.

(** ** Wheel and pinch steps *)
Section ZoomSteps.

(** X8: A wheel notch changes the transform and nothing else, keeps the scale
    within the bounds, and, within floating tolerance (over the real
    numbers that the doubles approximate), sends the board point that was
    under the cursor's canvas position to the cursor's client position:
    the two agree when the canvas sits at the viewport's origin. *)
Theorem handleWheel_anchors_cursor
  (s : State) (rect : option DOMRect) (cx cy deltaY : R) :
let under :=
  screenToTarget (transform s)
    (cx - match rect with Some rect => left rect | None => 0 end)
    (cy - match rect with Some rect => top rect | None => 0 end) in
let s' := handleWheel rect cx cy deltaY s in
targetToScreen (transform s') (p_x under) (p_y under) = mkPoint cx cy
/\ 0.1 <= scale (transform s') <= 5
/\ s' = setTransform (transform s') s.
Proof.
intros under s'. unfold s', handleWheel. fold under. state_cbn.
split; [|split].
- unfold targetToScreen. cbn [t_x t_y scale]. f_equal; ring.
- cbn [scale]. apply clampScale_bounds.
- reflexivity.
Qed.

(** X9: Within the bounds, a notch with negative [deltaY] multiplies the
    scale by 1.1 up to the ceiling of 5 and never shrinks the view; any
    other notch, a [deltaY] of zero included, divides it by 1.1 down to the
    floor of 0.1 and never enlarges it. *)
Theorem handleWheel_direction
  (s : State) (rect : option DOMRect) (cx cy deltaY : R) :
0.1 <= scale (transform s) <= 5 ->
let s' := handleWheel rect cx cy deltaY s in
(deltaY < 0 ->
 scale (transform s') = Rmin 5 (scale (transform s) * 1.1)
 /\ scale (transform s) <= scale (transform s'))
/\ (0 <= deltaY ->
    scale (transform s') = Rmax 0.1 (scale (transform s) / 1.1)
    /\ scale (transform s') <= scale (transform s)).
Proof.
intros Hs s'. unfold s', handleWheel. state_cbn. cbn [scale].
split.
- intros Hd. rewrite bool_decide_eq_true_2 by exact Hd.
  unfold Rmax, Rmin.
  destruct (Rle_dec 5 _); destruct (Rle_dec 0.1 _); split; lra.
- intros Hd. rewrite bool_decide_eq_false_2 by lra.
  assert (Hdiv : scale (transform s) / 1.1 <= scale (transform s)) by lra.
  unfold Rmax, Rmin.
  destruct (Rle_dec 5 _); destruct (Rle_dec 0.1 _); split; lra.
Qed.

Lemma handleWheel_direction_witness :
0.1 <= scale (transform (initialState 800 600)) <= 5
/\ scale (transform (handleWheel (Some (mkRect 0 0)) 400 300 (-1)
                       (initialState 800 600)))
   = Rmin 5 (scale (transform (initialState 800 600)) * 1.1).
Proof.
assert (H : 0.1 <= scale (transform (initialState 800 600)) <= 5)
  by (cbn; lra).
split; [exact H|].
destruct (handleWheel_direction (initialState 800 600) (Some (mkRect 0 0))
            400 300 (-1) H) as [Hin _].
apply Hin. lra.
Defined.

(** The pinch branch of [handleTouchMove], once its guard has passed. *)
Lemma handleTouchMove_pinch
  (s : State) (rect : DOMRect) (touch1 touch2 : Touch) (d0 : R) (c0 : Point) :
let d := getDistance (clientX touch1 - left rect) (clientY touch1 - top rect)
           (clientX touch2 - left rect) (clientY touch2 - top rect) in
let c := getCenter (clientX touch1 - left rect) (clientY touch1 - top rect)
           (clientX touch2 - left rect) (clientY touch2 - top rect) in
lastTouchDistance s = Some d0 ->
lastTouchCenter s = Some c0 ->
d0 <> 0 ->
handleTouchMove (Some rect) [touch1; touch2] s
= setLastTouchCenter (Some c)
    (setLastTouchDistance (Some d)
       (setTransform
          (mkTransform (t_x (transform s) + (p_x c - p_x c0))
             (t_y (transform s) + (p_y c - p_y c0))
             (clampScale (scale (transform s) * (d / d0))))
          s)).
Proof.
intros d c Hd Hc Hd0. unfold handleTouchMove. rewrite Hd, Hc.
unfold truthy. rewrite bool_decide_eq_false_2 by exact Hd0. reflexivity.
Qed.

Lemma pinch_overwrites (s : State) (T T' : TransformProps) (d d' : option R)
  (c c' : option Point) :
setLastTouchCenter c
  (setLastTouchDistance d
     (setTransform T
        (setLastTouchCenter c' (setLastTouchDistance d' (setTransform T' s)))))
= setLastTouchCenter c (setLastTouchDistance d (setTransform T s)).
Proof. reflexivity. Qed.

(** X10: Within floating tolerance, that is over the real numbers that the
    doubles approximate, pinch steps are incremental and compose: as long
    as the scale stays within the bounds in between, passing through an
    intermediate finger position leaves the component in the state reached
    by moving to the final position directly; the offsets have moved by
    the midpoint's total displacement. *)
Theorem pinch_steps_compose
  (s : State) (rect : DOMRect) (a1 a2 b1 b2 : Touch) (d0 : R) (c0 : Point) :
let dA := getDistance (clientX a1 - left rect) (clientY a1 - top rect)
            (clientX a2 - left rect) (clientY a2 - top rect) in
let cB := getCenter (clientX b1 - left rect) (clientY b1 - top rect)
            (clientX b2 - left rect) (clientY b2 - top rect) in
lastTouchDistance s = Some d0 ->
lastTouchCenter s = Some c0 ->
d0 <> 0 ->
dA <> 0 ->
0.1 <= scale (transform s) * (dA / d0) <= 5 ->
run s [TouchMove (Some rect) [a1; a2]; TouchMove (Some rect) [b1; b2]]
= run s [TouchMove (Some rect) [b1; b2]]
/\ t_x (transform (run s [TouchMove (Some rect) [b1; b2]]))
   = t_x (transform s) + (p_x cB - p_x c0)
/\ t_y (transform (run s [TouchMove (Some rect) [b1; b2]]))
   = t_y (transform s) + (p_y cB - p_y c0).
Proof.
intros dA cB Hd Hc Hd0 HdA Hmid.
unfold run. cbn [fold_left step].
rewrite (handleTouchMove_pinch s rect b1 b2 d0 c0 Hd Hc Hd0).
split; [|split; reflexivity].
rewrite (handleTouchMove_pinch s rect a1 a2 d0 c0 Hd Hc Hd0).
erewrite handleTouchMove_pinch; [|reflexivity|reflexivity|exact HdA].
rewrite pinch_overwrites. state_cbn. cbn [t_x t_y scale].
fold dA cB.
rewrite (clampScale_id (scale (transform s) * (dA / d0))) by exact Hmid.
do 3 f_equal.
f_equal; [ring|ring|].
f_equal. field. split; assumption.
Qed.

(** Two fingers 100 apart around (100, 100) on a 800 x 600 screen. *)
Definition spreadStart : State :=
run (initialState 800 600)
  [TouchStart (Some (mkRect 0 0)) 0 [mkTouch 50 100; mkTouch 150 100]].

Lemma pinch_steps_compose_witness :
lastTouchDistance spreadStart = Some 100
/\ lastTouchCenter spreadStart = Some (mkPoint 100 100)
/\ run spreadStart
     [TouchMove (Some (mkRect 0 0)) [mkTouch 25 100; mkTouch 175 100];
      TouchMove (Some (mkRect 0 0)) [mkTouch 0 120; mkTouch 200 120]]
   = run spreadStart
       [TouchMove (Some (mkRect 0 0)) [mkTouch 0 120; mkTouch 200 120]].
Proof.
assert (Hd : lastTouchDistance spreadStart = Some 100).
{ cbn. rewrite getDistance_horizontal by lra. f_equal. lra. }
assert (Hc : lastTouchCenter spreadStart = Some (mkPoint 100 100)).
{ cbn. unfold getCenter. do 2 f_equal; lra. }
assert (HdA : getDistance (25 - 0) (100 - 0) (175 - 0) (100 - 0) = 150).
{ rewrite getDistance_horizontal by lra. lra. }
split; [exact Hd|]. split; [exact Hc|].
apply (pinch_steps_compose spreadStart (mkRect 0 0) (mkTouch 25 100)
         (mkTouch 175 100) (mkTouch 0 120) (mkTouch 200 120) 100
         (mkPoint 100 100) Hd Hc).
- lra.
- cbn [clientX clientY left top]. rewrite HdA. lra.
- cbn [clientX clientY left top]. rewrite HdA.
  change (scale (transform spreadStart)) with 1. lra.
Defined.

End ZoomSteps.

(** ** A second touch after the long press has fired *)
Section LateSecondTouch.

(** The dots, committed and temporary, are the same in both states. *)
Definition sameDots (s s' : State) : Prop :=
temporaryDot s' = temporaryDot s
/\ draggedDotId s' = draggedDotId s
/\ dots s' = dots s.

(** A second finger landing: the dots stay, the view stays, the pinch
    flag is set and the pinch is anchored. *)
Lemma handleTouchStart_pair
  (s : State) (rect : DOMRect) (now : R) (touch1 touch2 : Touch) :
let s' := handleTouchStart (Some rect) now [touch1; touch2] s in
sameDots s s'
/\ transform s' = transform s
/\ wasPinch s' = true
/\ lastTouchDistance s'
   = Some (getDistance (clientX touch1 - left rect) (clientY touch1 - top rect)
             (clientX touch2 - left rect) (clientY touch2 - top rect))
/\ lastTouchCenter s'
   = Some (getCenter (clientX touch1 - left rect) (clientY touch1 - top rect)
             (clientX touch2 - left rect) (clientY touch2 - top rect)).
Proof.
intros s'. unfold s', handleTouchStart, sameDots.
destruct (cancelLongPress_shape s) as (cell & table & ->).
state_cbn. split; [split; [|split]|split; [|split; [|split]]]; reflexivity.
Qed.

(** A pinch move: the dots and the pinch flag stay. *)
Lemma handleTouchMove_pair_dots
  (s : State) (rect : option DOMRect) (touch1 touch2 : Touch) :
let s' := handleTouchMove rect [touch1; touch2] s in
sameDots s s' /\ wasPinch s' = wasPinch s.
Proof.
intros s'. unfold s', handleTouchMove, sameDots.
destruct (lastTouchDistance s) as [d0|]; [|tauto].
destruct (lastTouchCenter s) as [c0|]; [|tauto].
destruct (truthy d0); [|tauto].
destruct rect as [rect|]; [|tauto].
state_cbn. tauto.
Qed.

(** A finger lifting while another stays down: only the timer goes. *)
Lemma handleTouchEnd_remaining (s : State) (touch : Touch) (rest : list Touch) :
let s' := handleTouchEnd (touch :: rest) s in
sameDots s s' /\ wasPinch s' = wasPinch s /\ transform s' = transform s.
Proof.
intros s'. unfold s', handleTouchEnd, sameDots.
destruct (cancelLongPress_shape s) as (cell & table & ->).
state_cbn. tauto.
Qed.

(** The last finger lifting over a temporary dot commits it, whatever the
    pinch flag says. *)
Lemma handleTouchEnd_commits (s : State) (t : Dot) (d : DotId) :
temporaryDot s = Some t -> draggedDotId s = Some d ->
dots (handleTouchEnd [] s) = dots s ++ [committed t].
Proof.
intros Ht Hd. unfold handleTouchEnd.
destruct (cancelLongPress_shape s) as (cell & table & ->).
rewrite Hd, Ht. unfold commitTemporaryDot. state_cbn. reflexivity.
Qed.

(** On a 800 x 600 screen: a finger lands at (410, 310) and the long-press
    timeout fires. *)
Definition longPressed : State :=
run (initialState 800 600)
  [TouchStart (Some (mkRect 0 0)) 0 [mkTouch 410 310]; Timeout 1].

(** Then a second finger lands at (510, 310). *)
Definition secondLanded : State :=
step longPressed
  (TouchStart (Some (mkRect 0 0)) 1 [mkTouch 410 310; mkTouch 510 310]).

(** The two fingers spread to (360, 310) and (560, 310). *)
Definition spread : State :=
step secondLanded
  (TouchMove (Some (mkRect 0 0)) [mkTouch 360 310; mkTouch 560 310]).

(** One finger lifts; the other is still down. *)
Definition oneLifted : State := step spread (TouchEnd [mkTouch 560 310]).

(** The last finger lifts. *)
Definition allLifted : State := step oneLifted (TouchEnd []).

Lemma longPressed_fields :
temporaryDot longPressed = Some (mkDot 0%nat 10 10 true true)
/\ draggedDotId longPressed = Some 0%nat
/\ dots longPressed = []
/\ transform longPressed = mkTransform (800 / 2) (600 / 2) 1.
Proof.
unfold longPressed.
change 1%nat with (nextTimer (initialState 800 600)).
rewrite touch_long_press. cbn.
split; [do 2 f_equal; field|]. split; [reflexivity|]. split; reflexivity.
Qed.

(** C2: one interaction, two outcomes.  A finger lands and the long-press
    timeout fires: a temporary dot appears.  A second finger lands and the
    two spread: the pinch flag is set and the view zooms from scale 1 to
    scale 2.  The fingers lift: the pinch flag is still set when the last
    one goes, and the release commits the temporary dot all the same.  The
    interaction has pinched and has placed a dot. *)
Theorem late_second_touch_zooms_and_commits :
dots (initialState 800 600) = []
/\ temporaryDot longPressed = Some (mkDot 0%nat 10 10 true true)
/\ scale (transform secondLanded) = 1
/\ scale (transform spread) = 2
/\ wasPinch oneLifted = true
/\ temporaryDot oneLifted = Some (mkDot 0%nat 10 10 true true)
/\ dots allLifted = [mkDot 0%nat 10 10 false false].
Proof.
destruct longPressed_fields as (Ht0 & Hi0 & Hd0 & Htr0).
destruct (handleTouchStart_pair longPressed (mkRect 0 0) 1
            (mkTouch 410 310) (mkTouch 510 310))
  as ((Ht1 & Hi1 & Hd1) & Htr1 & Hp1 & Hdist1 & Hc1).
fold (step longPressed (TouchStart (Some (mkRect 0 0)) 1
        [mkTouch 410 310; mkTouch 510 310])) in Ht1, Hi1, Hd1, Htr1, Hp1, Hdist1, Hc1.
fold secondLanded in Ht1, Hi1, Hd1, Htr1, Hp1, Hdist1, Hc1.
cbn [clientX clientY left top] in Hdist1, Hc1.
rewrite getDistance_horizontal in Hdist1 by lra.
destruct (handleTouchMove_pair_dots secondLanded (Some (mkRect 0 0))
            (mkTouch 360 310) (mkTouch 560 310))
  as ((Ht2 & Hi2 & Hd2) & Hp2).
assert (Hdistne : 510 - 0 - (410 - 0) <> 0) by lra.
pose proof (handleTouchMove_pinch secondLanded (mkRect 0 0) (mkTouch 360 310)
              (mkTouch 560 310) _ _ Hdist1 Hc1 Hdistne) as Hpinch.
fold (step secondLanded (TouchMove (Some (mkRect 0 0))
        [mkTouch 360 310; mkTouch 560 310])) in Ht2, Hi2, Hd2, Hp2, Hpinch.
fold spread in Ht2, Hi2, Hd2, Hp2, Hpinch.
destruct (handleTouchEnd_remaining spread (mkTouch 560 310) [])
  as ((Ht3 & Hi3 & Hd3) & Hp3 & Htr3).
fold (step spread (TouchEnd [mkTouch 560 310])) in Ht3, Hi3, Hd3, Hp3, Htr3.
fold oneLifted in Ht3, Hi3, Hd3, Hp3, Htr3.
split; [reflexivity|]. split; [exact Ht0|].
split; [rewrite Htr1, Htr0; reflexivity|].
split.
{ rewrite Hpinch. state_cbn. cbn [scale clientX clientY left top].
  rewrite Htr1, Htr0. cbn [scale].
  rewrite getDistance_horizontal by lra.
  rewrite clampScale_id by lra. lra. }
split; [rewrite Hp3, Hp2; exact Hp1|].
split; [rewrite Ht3, Ht2, Ht1; exact Ht0|].
unfold allLifted. cbn [step].
rewrite (handleTouchEnd_commits oneLifted (mkDot 0%nat 10 10 true true) 0%nat).
- rewrite Hd3, Hd2, Hd1, Hd0. reflexivity.
- rewrite Ht3, Ht2, Ht1. exact Ht0.
- rewrite Hi3, Hi2, Hi1. exact Hi0.
Qed.

End LateSecondTouch.

(** ** What an event can do to the dots *)
Section DotEffects.

(** The five ways in which one event changes the committed dots, the
    temporary dot, the dragged id, the highlighted ring and the supply of
    ids: not at all, by the long-press callback, by a drag, by the commit
    of the temporary dot, by a tap. *)
Inductive DotEffect (s s' : State) : Prop :=
| effect_none :
    dots s' = dots s ->
    temporaryDot s' = temporaryDot s ->
    draggedDotId s' = draggedDotId s ->
    highlightedRing s' = highlightedRing s ->
    nextUuid s' = nextUuid s ->
    DotEffect s s'
| effect_long_press (x y : R) :
    dots s' = dots s ->
    temporaryDot s' = Some (mkDot (nextUuid s) x y true true) ->
    draggedDotId s' = Some (nextUuid s) ->
    highlightedRing s' = highlightedRing s ->
    nextUuid s' = S (nextUuid s) ->
    DotEffect s s'
| effect_drag (prev : Dot) (d : DotId) (x y : R) :
    temporaryDot s = Some prev ->
    draggedDotId s = Some d ->
    dots s' = dots s ->
    temporaryDot s'
    = Some (mkDot (id prev) x y (isTemporary prev) (isDragging prev)) ->
    draggedDotId s' = Some d ->
    highlightedRing s' = getRingAtPoint x y ->
    nextUuid s' = nextUuid s ->
    DotEffect s s'
| effect_commit (t : Dot) (d : DotId) :
    temporaryDot s = Some t ->
    draggedDotId s = Some d ->
    dots s' = dots s ++ [committed t] ->
    temporaryDot s' = None ->
    draggedDotId s' = None ->
    highlightedRing s' = None ->
    nextUuid s' = nextUuid s ->
    DotEffect s s'
| effect_tap (x y : R) :
    temporaryDot s = None \/ draggedDotId s = None ->
    dots s' = dots s ++ [mkDot (nextUuid s) x y false false] ->
    temporaryDot s' = temporaryDot s ->
    draggedDotId s' = draggedDotId s ->
    highlightedRing s' = highlightedRing s ->
    nextUuid s' = S (nextUuid s) ->
    DotEffect s s'.

Lemma DotEffect_refl (s : State) : DotEffect s s.
Proof. apply effect_none; reflexivity. Qed.

Lemma dragTemporaryDot_effect
  (rect : option DOMRect) (cx cy : R) (s : State) (prev : Dot) (d : DotId) :
temporaryDot s = Some prev -> draggedDotId s = Some d ->
DotEffect s (dragTemporaryDot rect cx cy s).
Proof.
intros Ht Hd. unfold dragTemporaryDot.
destruct rect as [rect|]; [|apply DotEffect_refl].
eapply (effect_drag _ _ prev d); try eassumption; state_cbn;
  rewrite ?Ht; try reflexivity; assumption.
Qed.

Lemma release_effect (s : State) (cell : option nat)
  (table : gmap nat TimerCallback) (t : Dot) (d : DotId) :
temporaryDot s = Some t -> draggedDotId s = Some d ->
DotEffect s (commitTemporaryDot t (setLongPressTimer cell (setTimers table s))).
Proof.
intros Ht Hd. apply (effect_commit _ _ t d); try assumption; reflexivity.
Qed.

Lemma placeDot_effect (s : State) (cell : option nat)
  (table : gmap nat TimerCallback) (x y : R) :
temporaryDot s = None \/ draggedDotId s = None ->
DotEffect s (placeDot x y (setLongPressTimer cell (setTimers table s))).
Proof.
intros H. eapply effect_tap; try exact H; reflexivity.
Qed.

Lemma step_DotEffect (s : State) (e : Event) : DotEffect s (step s e).
Proof.
destruct e as [rect now touches|rect touches|touches|rect now button cx cy
              |rect cx cy| |rect cx cy deltaY|handle]; cbn [step].
- unfold handleTouchStart.
  destruct touches as [|t1 [|t2 [|t3 rest]]]; try apply DotEffect_refl.
  + destruct rect; apply effect_none; reflexivity.
  + destruct (cancelLongPress_shape s) as (cell & table & ->).
    destruct rect; apply effect_none; reflexivity.
- unfold handleTouchMove.
  destruct touches as [|t1 [|t2 [|t3 rest]]]; try apply DotEffect_refl.
  + destruct (temporaryDot s) as [prev|] eqn:Ht; [|apply DotEffect_refl].
    destruct (draggedDotId s) as [d|] eqn:Hd; [|apply DotEffect_refl].
    eapply dragTemporaryDot_effect; eassumption.
  + destruct (lastTouchDistance s); [|apply DotEffect_refl].
    destruct (lastTouchCenter s); [|apply DotEffect_refl].
    destruct (truthy _); [|apply DotEffect_refl].
    destruct rect; apply effect_none; reflexivity.
- unfold handleTouchEnd.
  destruct (cancelLongPress_shape s) as (cell & table & ->).
  destruct touches as [|t1 rest]; [|apply effect_none; reflexivity].
  destruct (draggedDotId s) as [d|] eqn:Hd.
  + destruct (temporaryDot s) as [t|] eqn:Ht.
    * apply (effect_commit _ _ t d); try assumption; reflexivity.
    * destruct (touchStartInfo s) as [info|]; [|apply effect_none; reflexivity].
      destruct (_ && _); [|apply effect_none; reflexivity].
      eapply effect_tap; try reflexivity. left. exact Ht.
  + destruct (touchStartInfo s) as [info|]; [|apply effect_none; reflexivity].
    destruct (_ && _); [|apply effect_none; reflexivity].
    eapply effect_tap; try reflexivity. right. exact Hd.
- unfold handleMouseDown.
  destruct (negb _); [apply DotEffect_refl|].
  destruct rect; apply effect_none; reflexivity.
- unfold handleMouseMove.
  destruct (temporaryDot s) as [prev|] eqn:Ht; [|apply DotEffect_refl].
  destruct (draggedDotId s) as [d|] eqn:Hd; [|apply DotEffect_refl].
  eapply dragTemporaryDot_effect; eassumption.
- unfold handleMouseUp.
  destruct (cancelLongPress_shape s) as (cell & table & ->).
  destruct (temporaryDot s) as [t|] eqn:Ht.
  + destruct (draggedDotId s) as [d|] eqn:Hd.
    * apply (effect_commit _ _ t d); try assumption; reflexivity.
    * destruct (mouseDownInfo s) as [info|]; [|apply effect_none; reflexivity].
      destruct (negb _); [|apply effect_none; reflexivity].
      eapply effect_tap; try reflexivity. right. exact Hd.
  + destruct (mouseDownInfo s) as [info|]; [|apply effect_none; reflexivity].
    destruct (negb _); [|apply effect_none; reflexivity].
    eapply effect_tap; try reflexivity. left. exact Ht.
- apply effect_none; reflexivity.
- unfold handleTimeout.
  destruct (timers s !! handle) as [[x y tr|x y tr]|]; [| |apply DotEffect_refl];
    eapply effect_long_press; reflexivity.
Qed.

(** An invariant of every step holds all along a run. *)
Lemma run_invariant (P : State -> Prop) :
(forall (s : State) (e : Event), P s -> P (step s e)) ->
forall (es : list Event) (s : State), P s -> P (run s es).
Proof.
intros Hstep es. unfold run.
induction es as [|e es IH]; intros s Hs; simpl; [exact Hs|].
apply IH, Hstep, Hs.
Qed.

End DotEffects.

(** ** Invariants of the event loop *)
Section Invariants.

(** Committed dots are plain, the temporary dot is flagged. *)
Definition flagsInv (s : State) : Prop :=
Forall (fun d => isTemporary d = false /\ isDragging d = false) (dots s)
/\ forall t : Dot,
     temporaryDot s = Some t -> isTemporary t = true /\ isDragging t = true.

Lemma flagsInv_step (s : State) (e : Event) : flagsInv s -> flagsInv (step s e).
Proof.
intros [Hdots Htemp]. unfold flagsInv.
destruct (step_DotEffect s e)
  as [Hd Ht _ _ _|x y Hd Ht _ _ _|prev d x y Hp _ Hd Ht _ _ _
     |t d Hp _ Hd Ht _ _ _|x y _ Hd Ht _ _ _];
  rewrite Hd, Ht.
- split; assumption.
- split; [exact Hdots|]. intros t [= <-]. split; reflexivity.
- split; [exact Hdots|]. intros t [= <-]. cbn. apply Htemp, Hp.
- split; [|discriminate].
  apply Forall_app. split; [exact Hdots|].
  apply Forall_singleton. split; reflexivity.
- split; [|exact Htemp].
  apply Forall_app. split; [exact Hdots|].
  apply Forall_singleton. split; reflexivity.
Qed.

(** X11: In every state the component can reach, whatever the events: each
    committed dot has both flags cleared, and the temporary dot, when there
    is one, has both set. *)
Theorem dot_flags_invariant (width height : R) (es : list Event) :
let s := run (initialState width height) es in
Forall (fun d => isTemporary d = false /\ isDragging d = false) (dots s)
/\ forall t : Dot,
     temporaryDot s = Some t -> isTemporary t = true /\ isDragging t = true.
Proof.
apply (run_invariant flagsInv flagsInv_step).
split; [constructor|discriminate].
Qed.

Lemma getRingAtPoint_bound (x y : R) (i : nat) :
getRingAtPoint x y = Some i -> (i < length getRings)%nat.
Proof.
unfold getRingAtPoint. intros H.
apply ringLoop_Some in H as (j & ring & -> & Hl & _).
apply getRings_lookup in Hl as (Hlt & _). exact Hlt.
Qed.

(** The dragged id names the temporary dot, and a ring is highlighted
    only under a temporary dot. *)
Definition linkInv (s : State) : Prop :=
match temporaryDot s, draggedDotId s with
| None, None => highlightedRing s = None
| Some t, Some d => id t = d
| _, _ => False
end
/\ forall i : nat, highlightedRing s = Some i -> (i < length getRings)%nat.

Lemma linkInv_step (s : State) (e : Event) : linkInv s -> linkInv (step s e).
Proof.
intros [Hlink Hring]. unfold linkInv.
destruct (step_DotEffect s e)
  as [_ Ht Hd Hr _|x y _ Ht Hd Hr _|prev d x y Hp Hpd _ Ht Hd Hr _
     |t d _ _ _ Ht Hd Hr _|x y Hnone _ Ht Hd Hr _];
  rewrite Ht, Hd, Hr.
- split; assumption.
- split; [reflexivity|exact Hring].
- rewrite Hp, Hpd in Hlink. split; [exact Hlink|].
  intros i. apply getRingAtPoint_bound.
- split; [reflexivity|discriminate].
- split; assumption.
Qed.

(** X12: In every reachable state: there is a temporary dot exactly when there
    is a dragged id, which is then the id of that dot; a ring is
    highlighted only while a temporary dot exists, and it is one of the
    rings. *)
Theorem dragged_id_names_temporary_dot (width height : R) (es : list Event) :
let s := run (initialState width height) es in
(temporaryDot s = None <-> draggedDotId s = None)
/\ (forall t : Dot, temporaryDot s = Some t -> draggedDotId s = Some (id t))
/\ (temporaryDot s = None -> highlightedRing s = None)
/\ (forall i : nat, highlightedRing s = Some i -> (i < length getRings)%nat).
Proof.
intros s.
assert (H : linkInv s).
{ apply (run_invariant linkInv linkInv_step). split; [reflexivity|discriminate]. }
destruct H as [Hlink Hring].
destruct (temporaryDot s) as [t|]; destruct (draggedDotId s) as [d|];
  try contradiction.
- repeat split; try discriminate; try exact Hring.
  intros t' [= <-]. rewrite Hlink. reflexivity.
- repeat split; try discriminate; try exact Hring; intros; assumption.
Qed.

(** Ids are handed out once: all ids in use are below the next one, the
    committed dots have pairwise different ids, and the temporary dot's id
    is none of theirs. *)
Definition idsInv (s : State) : Prop :=
NoDup (map id (dots s))
/\ Forall (fun d => (id d < nextUuid s)%nat) (dots s)
/\ forall t : Dot,
     temporaryDot s = Some t ->
     (id t < nextUuid s)%nat /\ id t ∉ map id (dots s).

Lemma ids_below_fresh (l : list Dot) (n : nat) :
Forall (fun d => (id d < n)%nat) l -> n ∉ map id l.
Proof.
intros H Hin. apply list_elem_of_fmap in Hin as (d & -> & Hd).
rewrite Forall_forall in H. specialize (H d Hd). lia.
Qed.

Lemma idsInv_step (s : State) (e : Event) : idsInv s -> idsInv (step s e).
Proof.
intros (Hnd & Hlt & Htemp). unfold idsInv.
destruct (step_DotEffect s e)
  as [Hd Ht _ _ Hn|x y Hd Ht _ _ Hn|prev d x y Hp _ Hd Ht _ _ Hn
     |t d Hp _ Hd Ht _ _ Hn|x y _ Hd Ht _ _ Hn];
  rewrite Hd, Ht, Hn.
- split; [exact Hnd|]. split; [exact Hlt|exact Htemp].
- split; [exact Hnd|]. split.
  + eapply Forall_impl; [exact Hlt|]. cbn. intros; lia.
  + intros t [= <-]. cbn. split; [lia|]. apply ids_below_fresh, Hlt.
- split; [exact Hnd|]. split; [exact Hlt|].
  intros t [= <-]. cbn. apply Htemp, Hp.
- destruct (Htemp t Hp) as [Hid Hfresh].
  split; [|split; [|discriminate]].
  + rewrite map_app. cbn. apply NoDup_app. split; [exact Hnd|].
    split; [|apply NoDup_singleton].
    intros n Hn' Hin. apply list_elem_of_singleton in Hin. subst n.
    contradiction.
  + apply Forall_app. split; [exact Hlt|]. apply Forall_singleton. exact Hid.
- split; [|split].
  + rewrite map_app. cbn. apply NoDup_app. split; [exact Hnd|].
    split; [|apply NoDup_singleton].
    intros n Hn' Hin. apply list_elem_of_singleton in Hin. subst n.
    exact (ids_below_fresh _ _ Hlt Hn').
  + apply Forall_app. split.
    * eapply Forall_impl; [exact Hlt|]. cbn. intros; lia.
    * apply Forall_singleton. cbn. lia.
  + intros t Ht'. destruct (Htemp t Ht') as [Hid Hfresh]. split; [lia|].
    rewrite map_app. cbn. intros Hin. apply elem_of_app in Hin as [Hin|Hin].
    * contradiction.
    * apply list_elem_of_singleton in Hin. lia.
Qed.

(** X13: In every reachable state no two dots on the board share an id, the
    temporary dot included, provided [uuidv4] never repeats itself. *)
Theorem dot_ids_unique (width height : R) (es : list Event) :
let s := run (initialState width height) es in
NoDup (map id (dots s))
/\ forall t : Dot,
     temporaryDot s = Some t -> NoDup (map id (dots s ++ [t])).
Proof.
intros s.
assert (H : idsInv s).
{ apply (run_invariant idsInv idsInv_step).
  split; [constructor|]. split; [constructor|discriminate]. }
destruct H as (Hnd & _ & Htemp).
split; [exact Hnd|].
intros t Ht. destruct (Htemp t Ht) as [_ Hfresh].
rewrite map_app. cbn. apply NoDup_app. split; [exact Hnd|].
split; [|apply NoDup_singleton].
intros n Hn Hin. apply list_elem_of_singleton in Hin. subst n. contradiction.
Qed.

Lemma step_dots_prefix (s : State) (e : Event) :
dots s `prefix_of` dots (step s e)
/\ (length (dots (step s e))
    <= length (dots s) + (if isRelease e then 1 else 0))%nat.
Proof.
destruct (isRelease e) eqn:He.
- destruct (step_dots_any s e) as [H|[d H]]; rewrite H.
  + split; [reflexivity|lia].
  + split; [apply prefix_app_r; reflexivity|]. rewrite length_app. cbn. lia.
- rewrite (step_dots_inner s e He). split; [reflexivity|lia].
Qed.

(** X14: The committed list is append-only: along any sequence of events the
    dots already placed stay where they are in the list, unchanged, and
    the list grows by at most one dot per release event. *)
Theorem dots_append_only (s : State) (es : list Event) :
dots s `prefix_of` dots (run s es)
/\ (forall (i : nat) (d : Dot),
      dots s !! i = Some d -> dots (run s es) !! i = Some d)
/\ (length (dots (run s es))
    <= length (dots s) + length (filter (fun e => isRelease e = true) es))%nat.
Proof.
assert (H : dots s `prefix_of` dots (run s es)
            /\ (length (dots (run s es))
                <= length (dots s)
                   + length (filter (fun e => isRelease e = true) es))%nat).
{ unfold run. revert s. induction es as [|e es IH]; intros s; cbn [fold_left].
  - split; [reflexivity|cbn; lia].
  - destruct (IH (step s e)) as [Hp Hl].
    destruct (step_dots_prefix s e) as [Hp1 Hl1].
    split; [etrans; eassumption|].
    rewrite filter_cons. destruct (isRelease e); cbn in *.
    + rewrite decide_True by reflexivity. cbn. lia.
    + rewrite decide_False by discriminate. lia. }
destruct H as [Hp Hl]. split; [exact Hp|]. split; [|exact Hl].
intros i d Hi. destruct Hp as [k ->]. apply lookup_app_l_Some, Hi.
Qed.

End Invariants.

(** ** The long-press timer over an interaction *)
Section TimerLifetime.

(** While an interaction that started from rest is under way: the
    browser hands out positive handles, the timer cell holds none or a
    positive one, and the only timeout that can still be scheduled is the
    one the cell refers to. *)
Definition timerInv (s : State) : Prop :=
nextTimer s <> 0%nat
/\ match longPressTimer s with
   | Some handle => handle <> 0%nat
   | None => True
   end
/\ (timers s = ∅
    \/ exists (handle : nat) (cb : TimerCallback),
         timers s = {[handle := cb]} /\ longPressTimer s = Some handle).

Lemma cancelLongPress_timerInv (s : State) :
timerInv s -> cancelLongPress s = setLongPressTimer None (setTimers ∅ s).
Proof.
intros (_ & Hcell & Htable). unfold cancelLongPress, clearTimeout.
destruct (longPressTimer s) as [handle|] eqn:Hl.
- rewrite (truthy_handle_nonzero handle Hcell).
  destruct Htable as [->|(h & cb & -> & [= ->])].
  + rewrite delete_empty. reflexivity.
  + rewrite delete_singleton_eq. reflexivity.
- destruct Htable as [Ht|(h & cb & _ & ?)]; [|discriminate].
  destruct s. cbn in *. subst. reflexivity.
Qed.

Lemma timerInv_cancelled (s : State) :
nextTimer s <> 0%nat -> timerInv (setLongPressTimer None (setTimers ∅ s)).
Proof. intros H. split; [exact H|]. split; [exact I|]. left. reflexivity. Qed.

Lemma timerInv_frame (s s' : State) :
timerInv s ->
nextTimer s' = nextTimer s -> longPressTimer s' = longPressTimer s ->
timers s' = timers s ->
timerInv s'.
Proof. unfold timerInv. intros H -> -> ->. exact H. Qed.

Lemma timerInv_step (s : State) (e : Event) :
touchInner e = true \/ mouseInner e = true ->
timerInv s -> timerInv (step s e).
Proof.
intros He Hinv.
pose proof Hinv as (Hnext & Hcell & Htable).
destruct e as [rect now touches|rect touches|touches| |rect cx cy| |rect cx cy deltaY
              |handle];
  try (destruct He; discriminate); cbn [step].
- destruct He as [He|He]; [|discriminate]. cbn in He.
  unfold handleTouchStart.
  destruct touches as [|t1 [|t2 [|t3 rest]]];
    try (apply bool_decide_eq_true in He; simpl in He; lia);
    [|exact Hinv].
  rewrite (cancelLongPress_timerInv s Hinv).
  destruct rect; [|apply timerInv_cancelled, Hnext].
  eapply timerInv_frame; [apply (timerInv_cancelled s Hnext)|..]; reflexivity.
- unfold handleTouchMove, dragTemporaryDot.
  destruct touches as [|t1 [|t2 [|t3 rest]]]; try exact Hinv.
  + destruct (temporaryDot s); [|exact Hinv].
    destruct (draggedDotId s); [|exact Hinv].
    destruct rect; [|exact Hinv].
    eapply timerInv_frame; [exact Hinv|..]; reflexivity.
  + destruct (lastTouchDistance s); [|exact Hinv].
    destruct (lastTouchCenter s); [|exact Hinv].
    destruct (truthy _); [|exact Hinv].
    destruct rect; [|exact Hinv].
    eapply timerInv_frame; [exact Hinv|..]; reflexivity.
- destruct He as [He|He]; [|discriminate]. cbn in He.
  unfold handleTouchEnd.
  destruct touches as [|t1 rest];
    [apply bool_decide_eq_true in He; simpl in He; lia|].
  rewrite (cancelLongPress_timerInv s Hinv). apply timerInv_cancelled, Hnext.
- unfold handleMouseMove, dragTemporaryDot.
  destruct (temporaryDot s); [|exact Hinv].
  destruct (draggedDotId s); [|exact Hinv].
  destruct rect; [|exact Hinv].
  eapply timerInv_frame; [exact Hinv|..]; reflexivity.
- eapply timerInv_frame; [exact Hinv|..]; reflexivity.
- unfold handleTimeout.
  destruct (timers s !! handle) as [cb|] eqn:Hlook; [|exact Hinv].
  destruct Htable as [Ht|(h & cb' & Ht & Hl)].
  + rewrite Ht, lookup_empty in Hlook. discriminate.
  + rewrite Ht in Hlook. apply lookup_singleton_Some in Hlook as [-> ->].
    rewrite Ht, delete_singleton_eq.
    assert (Hinv' : timerInv (setTimers ∅ s)).
    { split; [exact Hnext|]. split; [exact Hcell|]. left. reflexivity. }
    destruct cb; eapply timerInv_frame; try exact Hinv'; reflexivity.
Qed.

Lemma timerInv_run (inner : list Event) (s : State) :
Forall (fun e => touchInner e = true \/ mouseInner e = true) inner ->
timerInv s -> timerInv (run s inner).
Proof.
unfold run. intros H. revert s.
induction H as [|e inner He _ IH]; intros s Hs; simpl.
- exact Hs.
- apply IH, timerInv_step; assumption.
Qed.

Lemma timerInv_touch_start (s : State) (rect : DOMRect) (now : R) (touch : Touch) :
idle s -> timerInv (step s (TouchStart (Some rect) now [touch])).
Proof.
intros (_ & Htimers & Hnext). split; [cbn; lia|]. split; [exact Hnext|].
right.
exists (nextTimer s),
  (TouchLongPress (clientX touch - left rect) (clientY touch - top rect)
     (transform s)).
split; [|reflexivity].
rewrite <- insert_empty, <- Htimers. reflexivity.
Qed.

Lemma timerInv_mouse_down (s : State) (rect : DOMRect) (now cx cy : R) :
idle s -> timerInv (step s (MouseDown (Some rect) now 0 cx cy)).
Proof.
intros (_ & Htimers & Hnext). split; [cbn; lia|]. split; [exact Hnext|].
right.
exists (nextTimer s),
  (MouseLongPress (cx - left rect) (cy - top rect) (transform s)).
split; [|reflexivity].
rewrite <- insert_empty, <- Htimers. reflexivity.
Qed.

(** X15: No timer outlives its interaction.  From rest, a finger landing
    alone, whatever follows while fingers are down, and the last finger
    lifting bring the component back to rest: no temporary dot, nothing
    scheduled, timer cell and gesture records cleared, so that a late
    timeout changes nothing.  The same from mouse button down to up. *)
Theorem interaction_returns_to_rest :
(forall (s : State) (rect : DOMRect) (now : R) (touch : Touch)
        (inner : list Event),
   idle s ->
   Forall (fun e => touchInner e = true) inner ->
   let s' := run s (TouchStart (Some rect) now [touch] :: inner ++ [TouchEnd []]) in
   idle s'
   /\ longPressTimer s' = None
   /\ touchStartInfo s' = None
   /\ wasPinch s' = false
   /\ lastTouchDistance s' = None
   /\ lastTouchCenter s' = None
   /\ forall handle : nat, step s' (Timeout handle) = s')
/\ (forall (s : State) (rect : DOMRect) (now cx cy : R) (inner : list Event),
      idle s ->
      Forall (fun e => mouseInner e = true) inner ->
      let s' := run s (MouseDown (Some rect) now 0 cx cy :: inner ++ [MouseUp]) in
      idle s'
      /\ longPressTimer s' = None
      /\ mouseDownInfo s' = None
      /\ forall handle : nat, step s' (Timeout handle) = s').
Proof.
split.
- intros s rect now touch inner Hidle Hinner s'.
  set (atRelease := run (step s (TouchStart (Some rect) now [touch])) inner).
  assert (Hs' : s' = step atRelease (TouchEnd [])).
  { unfold s', atRelease.
    change (TouchStart (Some rect) now [touch] :: inner ++ [TouchEnd []])
      with ([TouchStart (Some rect) now [touch]] ++ (inner ++ [TouchEnd []])).
    rewrite run_app, run_snoc. reflexivity. }
  assert (Htimer : timerInv atRelease).
  { apply timerInv_run; [|apply timerInv_touch_start, Hidle].
    eapply Forall_impl; [exact Hinner|]. intros e He. left. exact He. }
  assert (Hpressed : touchPressed s (clientX touch - left rect)
                       (clientY touch - top rect) atRelease).
  { apply touchPressed_run; [exact Hinner|].
    apply touchPressed_start, Hidle. }
  destruct Hpressed as (_ & info & Hinfo & _ & _ & Htemp).
  pose proof Htimer as (Hnext & _ & _).
  assert (Hrest : idle s' /\ longPressTimer s' = None /\ touchStartInfo s' = None
                  /\ wasPinch s' = false /\ lastTouchDistance s' = None
                  /\ lastTouchCenter s' = None /\ timers s' = ∅).
  { rewrite Hs'. cbn [step]. unfold handleTouchEnd, idle.
    rewrite (cancelLongPress_timerInv atRelease Htimer), Hinfo.
    destruct (temporaryDot atRelease) as [t|] eqn:Ht.
    - destruct Htemp as [d ->]. repeat split; try reflexivity; exact Hnext.
    - destruct (draggedDotId atRelease); destruct (_ && _);
        unfold placeDot, uuidv4; state_cbn;
        repeat split; try reflexivity; try exact Ht; exact Hnext. }
  destruct Hrest as (H1 & H2 & H3 & H4 & H5 & H6 & H7).
  repeat split; try assumption; try apply H1.
  intros handle. cbn [step]. apply handleTimeout_unscheduled.
  rewrite H7. apply lookup_empty.
- intros s rect now cx cy inner Hidle Hinner s'.
  set (atRelease := run (step s (MouseDown (Some rect) now 0 cx cy)) inner).
  assert (Hs' : s' = step atRelease MouseUp).
  { unfold s', atRelease.
    change (MouseDown (Some rect) now 0 cx cy :: inner ++ [MouseUp])
      with ([MouseDown (Some rect) now 0 cx cy] ++ (inner ++ [MouseUp])).
    rewrite run_app, run_snoc. reflexivity. }
  assert (Htimer : timerInv atRelease).
  { apply timerInv_run; [|apply timerInv_mouse_down, Hidle].
    eapply Forall_impl; [exact Hinner|]. intros e He. right. exact He. }
  assert (Hpressed : mousePressed s (cx - left rect) (cy - top rect) atRelease).
  { apply mousePressed_run; [exact Hinner|].
    apply mousePressed_start, Hidle. }
  destruct Hpressed as (_ & info & Hinfo & _ & _ & Htemp).
  pose proof Htimer as (Hnext & _ & _).
  assert (Hrest : idle s' /\ longPressTimer s' = None /\ mouseDownInfo s' = None
                  /\ timers s' = ∅).
  { rewrite Hs'. cbn [step]. unfold handleMouseUp, idle.
    rewrite (cancelLongPress_timerInv atRelease Htimer), Hinfo.
    destruct (temporaryDot atRelease) as [t|] eqn:Ht.
    - destruct Htemp as [d ->]. repeat split; try reflexivity; exact Hnext.
    - destruct (negb _); unfold placeDot, uuidv4; state_cbn;
        repeat split; try reflexivity; try exact Ht; exact Hnext. }
  destruct Hrest as (H1 & H2 & H3 & H4).
  repeat split; try assumption; try apply H1.
  intros handle. cbn [step]. apply handleTimeout_unscheduled.
  rewrite H4. apply lookup_empty.
Qed.

End TimerLifetime.

(** ** Zooming while the pointer is down *)
Section ZoomWhilePressed.

Definition isWheel (e : Event) : bool :=
match e with
| Wheel _ _ _ _ => true
| _ => false
end.

Lemma setTransform_same (s : State) : setTransform (transform s) s = s.
Proof. destruct s. reflexivity. Qed.

(** Wheel notches write the transform and nothing else. *)
Lemma wheels_frame (wheels : list Event) (s : State) :
Forall (fun e => isWheel e = true) wheels ->
run s wheels = setTransform (transform (run s wheels)) s.
Proof.
unfold run. intros H. revert s.
induction H as [|e wheels He _ IH]; intros s; cbn [fold_left].
- symmetry. apply setTransform_same.
- destruct e; try discriminate. cbn [step].
  rewrite IH at 1. reflexivity.
Qed.

(** What the notches make of the transform depends on the transform
    alone. *)
Lemma wheels_transform (wheels : list Event) (s1 s2 : State) :
Forall (fun e => isWheel e = true) wheels ->
transform s1 = transform s2 ->
transform (run s1 wheels) = transform (run s2 wheels).
Proof.
unfold run. intros H. revert s1 s2.
induction H as [|e wheels He _ IH]; intros s1 s2 Ht; cbn [fold_left].
- exact Ht.
- destruct e; try discriminate. apply IH. cbn [step].
  unfold handleWheel. state_cbn. rewrite Ht. reflexivity.
Qed.

Lemma handleMouseDown_left (s : State) (rect : DOMRect) (now cx cy : R) :
step s (MouseDown (Some rect) now 0 cx cy)
= setLongPressTimer (Some (nextTimer s))
    (setNextTimer (S (nextTimer s))
       (setTimers
          (<[nextTimer s := MouseLongPress (cx - left rect) (cy - top rect)
                              (transform s)]> (timers s))
          (setMouseDownInfo
             (Some (mkMouseDownInfo (cx - left rect) (cy - top rect) cx cy now
                      false))
             s))).
Proof. reflexivity. Qed.

Lemma handleTouchStart_single (s : State) (rect : DOMRect) (now : R) (touch : Touch) :
step s (TouchStart (Some rect) now [touch])
= setLongPressTimer (Some (nextTimer s))
    (setNextTimer (S (nextTimer s))
       (setTimers
          (<[nextTimer s := TouchLongPress (clientX touch - left rect)
                              (clientY touch - top rect) (transform s)]>
             (timers s))
          (setWasPinch false
             (setTouchStartInfo
                (Some (mkTouchStartInfo (clientX touch - left rect)
                         (clientY touch - top rect) now false))
                s)))).
Proof. reflexivity. Qed.

(** X16: The long-press callback converts the pointer-down position with the
    transform of the moment of the press, which its closure captured; a
    tap converts it with the transform of the moment of the release.  So
    after wheel notches between press and timeout the temporary dot is
    placed by the old transform, and after notches between press and
    release the tap dot is placed by the new one. *)
Theorem long_press_keeps_transform_of_press
  (s : State) (rect : DOMRect) (now cx cy : R) (touch : Touch)
  (wheels : list Event) :
Forall (fun e => isWheel e = true) wheels ->
let atPress := transform s in
let atRelease := transform (run s wheels) in
let pm := screenToTarget atPress (cx - left rect) (cy - top rect) in
let pt := screenToTarget atPress
            (clientX touch - left rect) (clientY touch - top rect) in
let qm := screenToTarget atRelease (cx - left rect) (cy - top rect) in
let qt := screenToTarget atRelease
            (clientX touch - left rect) (clientY touch - top rect) in
temporaryDot (run s (MouseDown (Some rect) now 0 cx cy
                       :: wheels ++ [Timeout (nextTimer s)]))
= Some (mkDot (nextUuid s) (p_x pm) (p_y pm) true true)
/\ temporaryDot (run s (TouchStart (Some rect) now [touch]
                          :: wheels ++ [Timeout (nextTimer s)]))
   = Some (mkDot (nextUuid s) (p_x pt) (p_y pt) true true)
/\ (temporaryDot s = None ->
    dots (run s (MouseDown (Some rect) now 0 cx cy :: wheels ++ [MouseUp]))
    = dots s ++ [mkDot (nextUuid s) (p_x qm) (p_y qm) false false])
/\ (temporaryDot s = None ->
    dots (run s (TouchStart (Some rect) now [touch] :: wheels ++ [TouchEnd []]))
    = dots s ++ [mkDot (nextUuid s) (p_x qt) (p_y qt) false false]).
Proof.
intros Hw atPress atRelease pm pt qm qt.
assert (Hsplit : forall (down last : Event),
          run s (down :: wheels ++ [last])
          = step (setTransform (transform (run (step s down) wheels)) (step s down))
              last).
{ intros down last.
  change (down :: wheels ++ [last]) with ([down] ++ (wheels ++ [last])).
  rewrite run_app, run_snoc.
  rewrite (wheels_frame wheels (run s [down]) Hw) at 1. reflexivity. }
split; [|split; [|split]].
- rewrite Hsplit, handleMouseDown_left. cbn [step].
  rewrite (handleTimeout_scheduled _
             (MouseLongPress (cx - left rect) (cy - top rect) (transform s)));
    [reflexivity|].
  state_cbn. apply lookup_insert_eq.
- rewrite Hsplit, handleTouchStart_single. cbn [step].
  rewrite (handleTimeout_scheduled _
             (TouchLongPress (clientX touch - left rect)
                (clientY touch - top rect) (transform s)));
    [reflexivity|].
  state_cbn. apply lookup_insert_eq.
- intros Htemp. rewrite Hsplit.
  rewrite (wheels_transform wheels (step s (MouseDown (Some rect) now 0 cx cy)) s Hw)
    by reflexivity.
  fold atRelease. rewrite handleMouseDown_left. cbn [step].
  unfold handleMouseUp.
  match goal with
  | |- context [cancelLongPress ?st] =>
      destruct (cancelLongPress_shape st) as (cell & table & ->)
  end.
  state_cbn. rewrite Htemp. cbn [m_longPress negb m_x m_y].
  unfold placeDot, uuidv4. state_cbn. reflexivity.
- intros Htemp. rewrite Hsplit.
  rewrite (wheels_transform wheels (step s (TouchStart (Some rect) now [touch])) s Hw)
    by reflexivity.
  fold atRelease. rewrite handleTouchStart_single. cbn [step].
  unfold handleTouchEnd.
  match goal with
  | |- context [cancelLongPress ?st] =>
      destruct (cancelLongPress_shape st) as (cell & table & ->)
  end.
  state_cbn. rewrite Htemp. cbn [ts_longPress negb andb ts_x ts_y].
  destruct (draggedDotId s); unfold placeDot, uuidv4; state_cbn; reflexivity.
Qed.

Lemma long_press_keeps_transform_of_press_witness :
Forall (fun e => isWheel e = true) [Wheel (Some (mkRect 0 0)) 400 300 (-1)]
/\ temporaryDot
     (run (initialState 800 600)
        (MouseDown (Some (mkRect 0 0)) 0 0 410 310
           :: [Wheel (Some (mkRect 0 0)) 400 300 (-1)] ++ [Timeout 1]))
   = Some (mkDot 0%nat
             (p_x (screenToTarget (transform (initialState 800 600))
                     (410 - 0) (310 - 0)))
             (p_y (screenToTarget (transform (initialState 800 600))
                     (410 - 0) (310 - 0)))
             true true).
Proof.
assert (H : Forall (fun e => isWheel e = true)
              [Wheel (Some (mkRect 0 0)) 400 300 (-1)])
  by (repeat constructor).
split; [exact H|].
apply (long_press_keeps_transform_of_press (initialState 800 600) (mkRect 0 0)
         0 410 310 (mkTouch 410 310) _ H).
Defined.

End ZoomWhilePressed.

(** ** Edge inputs *)
Section EdgeInputs.

(** The events a handler drops at its first test: a mouse button other
    than the left one, a touch list of zero or of three and more fingers,
    and, short of the two-finger touch start, anything that needs the
    canvas rectangle when there is none. *)
Definition ignored (e : Event) : bool :=
match e with
| MouseDown rect _ button _ _ => negb (button =? 0)%nat || bool_decide (rect = None)
| TouchStart rect _ touches =>
    match touches with
    | [_] => bool_decide (rect = None)
    | [_; _] => false
    | _ => true
    end
| TouchMove rect touches =>
    match touches with
    | [_] | [_; _] => bool_decide (rect = None)
    | _ => true
    end
| MouseMove rect _ _ => bool_decide (rect = None)
| _ => false
end.

(** X17: An ignored event leaves the whole state as it is: no record of a press,
    no timer, no dot, no zoom. *)
Theorem ignored_event_noop (s : State) (e : Event) :
ignored e = true -> step s e = s.
Proof.
destruct e as [rect now touches|rect touches| |rect now button cx cy|rect cx cy
              | | |]; cbn [ignored step]; try discriminate.
- destruct touches as [|t1 [|t2 [|t3 rest]]]; try discriminate; try reflexivity.
  intros H. apply bool_decide_eq_true in H. subst rect. reflexivity.
- unfold handleTouchMove, dragTemporaryDot.
  destruct touches as [|t1 [|t2 [|t3 rest]]]; try reflexivity;
    intros H; apply bool_decide_eq_true in H; subst rect.
  + destruct (temporaryDot s); [destruct (draggedDotId s)|]; reflexivity.
  + destruct (lastTouchDistance s); [|reflexivity].
    destruct (lastTouchCenter s); [|reflexivity].
    destruct (truthy _); reflexivity.
- unfold handleMouseDown. intros H.
  destruct (negb (button =? 0)%nat); [reflexivity|].
  cbn in H. apply bool_decide_eq_true in H. subst rect. reflexivity.
- unfold handleMouseMove, dragTemporaryDot. intros H.
  apply bool_decide_eq_true in H. subst rect.
  destruct (temporaryDot s); [destruct (draggedDotId s)|]; reflexivity.
Qed.

Lemma ignored_event_noop_witness :
ignored (TouchStart (Some (mkRect 0 0)) 0
           [mkTouch 1 1; mkTouch 2 2; mkTouch 3 3]) = true
/\ step (initialState 800 600)
     (TouchStart (Some (mkRect 0 0)) 0 [mkTouch 1 1; mkTouch 2 2; mkTouch 3 3])
   = initialState 800 600.
Proof.
assert (H : ignored (TouchStart (Some (mkRect 0 0)) 0
                       [mkTouch 1 1; mkTouch 2 2; mkTouch 3 3]) = true)
  by reflexivity.
split; [exact H|exact (ignored_event_noop _ _ H)].
Defined.

(** X18: [handleMouseDown] schedules its timeout without clearing one that is
    pending: after two presses and one release the first timeout is still
    scheduled though the timer cell is empty, and when it fires a temporary
    dot appears with no button down. *)
Theorem second_press_leaves_first_timeout
  (s : State) (rect rect2 : DOMRect) (now now2 cx cy cx2 cy2 : R) :
nextTimer s <> 0%nat ->
let s' := run s [MouseDown (Some rect) now 0 cx cy;
                 MouseDown (Some rect2) now2 0 cx2 cy2;
                 MouseUp] in
longPressTimer s' = None
/\ mouseDownInfo s' = None
/\ timers s' !! nextTimer s
   = Some (MouseLongPress (cx - left rect) (cy - top rect) (transform s))
/\ timers s' !! S (nextTimer s) = None
/\ is_Some (temporaryDot (step s' (Timeout (nextTimer s)))).
Proof.
intros Hnext s'.
assert (Hcancel : forall st : State,
          longPressTimer st = Some (S (nextTimer s)) ->
          cancelLongPress st
          = setLongPressTimer None (clearTimeout (S (nextTimer s)) st)).
{ intros st H. unfold cancelLongPress. rewrite H. reflexivity. }
assert (Hshape : exists st : State,
          s' = setMouseDownInfo None st
          /\ longPressTimer st = None
          /\ timers st
             = delete (S (nextTimer s))
                 (<[S (nextTimer s) := MouseLongPress (cx2 - left rect2)
                                         (cy2 - top rect2) (transform s)]>
                    (<[nextTimer s := MouseLongPress (cx - left rect)
                                        (cy - top rect) (transform s)]>
                       (timers s)))).
{ unfold s', run. cbn [fold_left].
  rewrite (handleMouseDown_left s), handleMouseDown_left. cbn [step].
  unfold handleMouseUp. rewrite Hcancel by reflexivity.
  state_cbn.
  destruct (temporaryDot s) as [t|]; [destruct (draggedDotId s)|];
    eexists; (split; [reflexivity|split; reflexivity]). }
destruct Hshape as (st & -> & Hcell & Htable).
assert (Hfirst : timers (setMouseDownInfo None st) !! nextTimer s
                 = Some (MouseLongPress (cx - left rect) (cy - top rect)
                           (transform s))).
{ state_cbn. rewrite Htable, lookup_delete_ne by lia.
  rewrite lookup_insert_ne by lia. apply lookup_insert_eq. }
split; [exact Hcell|]. split; [reflexivity|]. split; [exact Hfirst|]. split.
- state_cbn. rewrite Htable. apply lookup_delete_eq.
- cbn [step]. rewrite (handleTimeout_scheduled _ _ _ Hfirst).
  eexists. reflexivity.
Qed.

Lemma second_press_leaves_first_timeout_witness :
nextTimer (initialState 800 600) <> 0%nat
/\ timers (run (initialState 800 600)
             [MouseDown (Some (mkRect 0 0)) 0 0 410 310;
              MouseDown (Some (mkRect 0 0)) 1 0 420 320;
              MouseUp]) !! nextTimer (initialState 800 600)
   = Some (MouseLongPress (410 - 0) (310 - 0) (transform (initialState 800 600))).
Proof.
assert (H : nextTimer (initialState 800 600) <> 0%nat) by (cbn; lia).
split; [exact H|].
apply (second_press_leaves_first_timeout (initialState 800 600) (mkRect 0 0)
         (mkRect 0 0) 0 1 410 310 420 320 H).
Defined.

End EdgeInputs.

(** ** Where the dots show *)
Section UnderThePointer.

(** X19: Within floating tolerance, that is over the real numbers that the
    doubles approximate: at a nonzero scale the new dot shows where the
    pointer is: the dot placed by a tap maps back to the canvas position
    of the pointer-down, and the temporary dot of a long press, once
    dragged, maps back to the canvas position of the latest move. *)
Theorem dot_shows_under_pointer
  (s : State) (rect rect' : DOMRect) (now cx cy mx my : R) :
scale (transform s) <> 0 ->
(temporaryDot s = None ->
 exists d : Dot,
   dots (run s [MouseDown (Some rect) now 0 cx cy; MouseUp]) = dots s ++ [d]
   /\ transform (run s [MouseDown (Some rect) now 0 cx cy; MouseUp]) = transform s
   /\ targetToScreen (transform s) (d_x d) (d_y d)
      = mkPoint (cx - left rect) (cy - top rect))
/\ exists t : Dot,
     temporaryDot (run s [MouseDown (Some rect) now 0 cx cy;
                          Timeout (nextTimer s);
                          MouseMove (Some rect') mx my]) = Some t
     /\ transform (run s [MouseDown (Some rect) now 0 cx cy;
                          Timeout (nextTimer s);
                          MouseMove (Some rect') mx my]) = transform s
     /\ targetToScreen (transform s) (d_x t) (d_y t)
        = mkPoint (mx - left rect') (my - top rect').
Proof.
intros Hscale.
assert (Hback : forall x y : R,
          targetToScreen (transform s)
            (p_x (screenToTarget (transform s) x y))
            (p_y (screenToTarget (transform s) x y)) = mkPoint x y).
{ intros x y. unfold targetToScreen, screenToTarget. cbn [p_x p_y].
  f_equal; field; exact Hscale. }
split.
- intros Htemp. unfold run. cbn [fold_left].
  rewrite handleMouseDown_left. cbn [step]. unfold handleMouseUp.
  match goal with
  | |- context [cancelLongPress ?st] =>
      destruct (cancelLongPress_shape st) as (cell & table & ->)
  end.
  state_cbn. rewrite Htemp. cbn [m_longPress negb m_x m_y].
  unfold placeDot, uuidv4. state_cbn.
  eexists. split; [reflexivity|]. split; [reflexivity|]. cbn [d_x d_y]. apply Hback.
- change [MouseDown (Some rect) now 0 cx cy; Timeout (nextTimer s);
          MouseMove (Some rect') mx my]
    with ([MouseDown (Some rect) now 0 cx cy; Timeout (nextTimer s)]
          ++ [MouseMove (Some rect') mx my]).
  rewrite run_snoc, mouse_long_press. cbn [step].
  unfold handleMouseMove, dragTemporaryDot. cbn.
  eexists. split; [reflexivity|]. split; [reflexivity|]. cbn [d_x d_y]. apply Hback.
Qed.

Lemma dot_shows_under_pointer_witness :
scale (transform (initialState 800 600)) <> 0
/\ exists t : Dot,
     temporaryDot (run (initialState 800 600)
                     [MouseDown (Some (mkRect 0 0)) 0 0 410 310;
                      Timeout (nextTimer (initialState 800 600));
                      MouseMove (Some (mkRect 0 0)) 450 280]) = Some t
     /\ transform (run (initialState 800 600)
                     [MouseDown (Some (mkRect 0 0)) 0 0 410 310;
                      Timeout (nextTimer (initialState 800 600));
                      MouseMove (Some (mkRect 0 0)) 450 280])
        = transform (initialState 800 600)
     /\ targetToScreen (transform (initialState 800 600)) (d_x t) (d_y t)
        = mkPoint (450 - 0) (280 - 0).
Proof.
assert (H : scale (transform (initialState 800 600)) <> 0) by (cbn; lra).
split; [exact H|].
apply (dot_shows_under_pointer (initialState 800 600) (mkRect 0 0) (mkRect 0 0)
         0 410 310 450 280 H).
Defined.

End UnderThePointer.

(** ** The picture *)
Section Picture.

(** The seven context operations that paint one dot in a given colour,
    at its screen position and with the fixed pixel radius. *)
Definition paintDot (T : TransformProps) (colour : string) (d : Dot) : list CanvasOp :=
[ set_fillStyle colour;
  set_strokeStyle "#000"%string;
  set_lineWidth 2;
  beginPath;
  arc (p_x (targetToScreen T (d_x d) (d_y d))) (p_y (targetToScreen T (d_x d) (d_y d)))
    dotRadius 0 (2 * PI);
  fill;
  stroke ].

Lemma drawDot_committed (T : TransformProps) (d : Dot) :
isTemporary d = false -> drawDot T d = paintDot T "#ff0000" d.
Proof. intros H. unfold drawDot. rewrite H. reflexivity. Qed.

Lemma drawDot_dragging (T : TransformProps) (d : Dot) :
isTemporary d = true -> isDragging d = true ->
drawDot T d = paintDot T "#00cc44" d.
Proof. intros H1 H2. unfold drawDot. rewrite H1, H2. reflexivity. Qed.

Lemma concat_imap_Forall {A B : Type} (P : B -> Prop) (f : nat -> A -> list B)
  (l : list A) :
(forall (i : nat) (x : A), Forall P (f i x)) -> Forall P (concat (imap f l)).
Proof.
revert f. induction l as [|x l IH]; intros f Hf; cbn.
- constructor.
- apply Forall_app. split; [apply Hf|]. apply IH. intros i y. apply Hf.
Qed.

Lemma drawRing_no_save_restore (T : TransformProps) (highlighted : option nat)
  (i : nat) (ring : RingInfo) :
Forall (fun op => op <> save /\ op <> restore) (drawRing T highlighted i ring).
Proof.
unfold drawRing. destruct (bool_decide (highlighted = Some i));
  repeat (constructor; [split; discriminate|]); constructor.
Qed.

(** X20: Without a canvas or without a 2D context [draw] does nothing.
    Otherwise, whatever state the events have led to, it clears the canvas,
    saves the context once and restores it once, and all that follows the
    restore is the dots, hence in screen space at the fixed radius whatever
    the zoom: first the committed dots in placement order, each in red,
    then the temporary dot if there is one, in green. *)
Theorem draw_paints_dots_after_restore
  (width height : R) (es : list Event) (canvas : Canvas) :
let s := run (initialState width height) es in
draw None s = []
/\ (context2d canvas = false -> draw (Some canvas) s = [])
/\ (context2d canvas = true ->
    exists board : list CanvasOp,
      draw (Some canvas) s
      = clearRect 0 0 (canvas_width canvas) (canvas_height canvas)
          :: save
          :: board
          ++ restore
          :: (concat (map (paintDot (transform s) "#ff0000") (dots s))
              ++ match temporaryDot s with
                 | Some t => paintDot (transform s) "#00cc44" t
                 | None => []
                 end)
      /\ Forall (fun op => op <> save /\ op <> restore) board).
Proof.
intros s. split; [reflexivity|]. split.
- intros H. unfold draw. rewrite H. reflexivity.
- intros H. unfold draw. rewrite H. cbn [negb].
  assert (Hflags : flagsInv s).
  { apply (run_invariant flagsInv flagsInv_step).
    split; [constructor|discriminate]. }
  destruct Hflags as [Hdots Htemp].
  assert (Hred : map (drawDot (transform s)) (dots s)
                 = map (paintDot (transform s) "#ff0000") (dots s)).
  { induction Hdots as [|d l [Hd _] _ IH]; cbn [map]; [reflexivity|].
    rewrite IH, (drawDot_committed _ d Hd). reflexivity. }
  assert (Hgreen : concat (map (drawDot (transform s))
                             match temporaryDot s with
                             | Some t => [t]
                             | None => []
                             end)
                   = match temporaryDot s with
                     | Some t => paintDot (transform s) "#00cc44" t
                     | None => []
                     end).
  { destruct (temporaryDot s) as [t|]; [|reflexivity].
    destruct (Htemp t eq_refl) as [H1 H2]. cbn [map concat].
    rewrite (drawDot_dragging _ t H1 H2). apply app_nil_r. }
  rewrite map_app, concat_app, Hred, Hgreen.
  match goal with
  | |- context [(_ :: _ :: ?pre) ++ concat (imap ?f getRings) ++ ?circ
                ++ [restore] ++ _] =>
      exists (pre ++ concat (imap f getRings) ++ circ)
  end.
  split.
  + cbn [app]. do 2 f_equal. rewrite <- !app_assoc. reflexivity.
  + apply Forall_app; split; [|apply Forall_app; split].
    * repeat (constructor; [split; discriminate|]). constructor.
    * apply concat_imap_Forall. intros i ring. apply drawRing_no_save_restore.
    * destruct (enclosingCircle s);
        repeat (constructor; [split; discriminate|]); constructor.
Qed.

End Picture.

(** ** View and dots are separate concerns *)
Section ViewAndDots.

(** The two events that write the transform. *)
Definition movesView (e : Event) : bool :=
match e with
| Wheel _ _ _ _ => true
| TouchMove _ [_; _] => true
| _ => false
end.

(** X21: Only the wheel and the two-finger move change the view, and they
    change nothing about the dots or the long-press timer: every other
    event leaves the transform alone, and these two leave the committed
    dots, the temporary dot, the dragged id, the highlighted ring, the
    timer cell and the scheduled timeouts alone. *)
Theorem view_and_dots_independent (s : State) (e : Event) :
(movesView e = false -> transform (step s e) = transform s)
/\ (movesView e = true ->
    dots (step s e) = dots s
    /\ temporaryDot (step s e) = temporaryDot s
    /\ draggedDotId (step s e) = draggedDotId s
    /\ highlightedRing (step s e) = highlightedRing s
    /\ longPressTimer (step s e) = longPressTimer s
    /\ timers (step s e) = timers s).
Proof.
split; intros He.
- destruct e as [rect now touches|rect touches|touches|rect now button cx cy
                |rect cx cy| | |handle]; try discriminate; cbn [step].
  + unfold handleTouchStart.
    destruct touches as [|t1 [|t2 [|t3 rest]]]; try reflexivity.
    * destruct rect; reflexivity.
    * destruct (cancelLongPress_shape s) as (cell & table & ->).
      destruct rect; reflexivity.
  + unfold handleTouchMove, dragTemporaryDot.
    destruct touches as [|t1 [|t2 [|t3 rest]]]; try reflexivity; try discriminate.
    destruct (temporaryDot s); [|reflexivity].
    destruct (draggedDotId s); [|reflexivity].
    destruct rect; reflexivity.
  + unfold handleTouchEnd.
    destruct (cancelLongPress_shape s) as (cell & table & ->).
    destruct touches; [|reflexivity].
    destruct (draggedDotId s); destruct (temporaryDot s);
      destruct (touchStartInfo s); try destruct (_ && _); reflexivity.
  + unfold handleMouseDown.
    destruct (negb _); [reflexivity|]. destruct rect; reflexivity.
  + unfold handleMouseMove, dragTemporaryDot.
    destruct (temporaryDot s); [|reflexivity].
    destruct (draggedDotId s); [|reflexivity].
    destruct rect; reflexivity.
  + unfold handleMouseUp.
    destruct (cancelLongPress_shape s) as (cell & table & ->).
    destruct (temporaryDot s); destruct (draggedDotId s);
      destruct (mouseDownInfo s); try destruct (negb _); reflexivity.
  + unfold handleTimeout.
    destruct (timers s !! handle) as [[x y tr|x y tr]|]; reflexivity.
- destruct e as [|rect touches| | | | |rect cx cy deltaY|]; try discriminate;
    cbn [step].
  + destruct touches as [|t1 [|t2 [|t3 rest]]]; try discriminate.
    unfold handleTouchMove.
    destruct (lastTouchDistance s); [|repeat split].
    destruct (lastTouchCenter s); [|repeat split].
    destruct (truthy _); [|repeat split].
    destruct rect; repeat split.
  + repeat split.
Qed.

(** X22: Two fingers that land and then report the very same positions do
    not move or zoom a view whose scale is within the bounds: there is no
    drift, also when both fingers are on the same pixel. *)
Theorem still_fingers_keep_view
  (s : State) (rect : DOMRect) (now : R) (touch1 touch2 : Touch) :
0.1 <= scale (transform s) <= 5 ->
transform (run s [TouchStart (Some rect) now [touch1; touch2];
                  TouchMove (Some rect) [touch1; touch2]])
= transform s.
Proof.
intros Hs. unfold run. cbn [fold_left step]. unfold handleTouchStart.
destruct (cancelLongPress_shape s) as (cell & table & ->).
unfold handleTouchMove. state_cbn.
destruct (truthy _) eqn:Ht; [|reflexivity].
unfold truthy in Ht. apply negb_true_iff, bool_decide_eq_false in Ht.
state_cbn.
set (d := getDistance _ _ _ _) in *. set (c := getCenter _ _ _ _).
fold (clampScale (scale (transform s) * (d / d))).
replace (scale (transform s) * (d / d)) with (scale (transform s))
  by (field; exact Ht).
rewrite (clampScale_id _ Hs).
destruct (transform s) as [tx ty sc]. cbn [t_x t_y scale]. f_equal; ring.
Qed.

Lemma still_fingers_keep_view_witness :
0.1 <= scale (transform (initialState 800 600)) <= 5
/\ transform (run (initialState 800 600)
                [TouchStart (Some (mkRect 0 0)) 0 [mkTouch 50 100; mkTouch 150 100];
                 TouchMove (Some (mkRect 0 0)) [mkTouch 50 100; mkTouch 150 100]])
   = transform (initialState 800 600).
Proof.
assert (H : 0.1 <= scale (transform (initialState 800 600)) <= 5)
  by (cbn; lra).
split; [exact H|].
apply (still_fingers_keep_view (initialState 800 600) (mkRect 0 0) 0
         (mkTouch 50 100) (mkTouch 150 100) H).
Defined.

End ViewAndDots.
